(** * OptimalBins: 2D bin-packing strategies

    A shallow embedding of the packing strategies of the repository
    (Bottom-Left, First-Fit, Guillotine, Max-Rects), of the [Item] and [Bin]
    classes they mutate, and the properties of the free-space management
    and placement engine.

    Numbers.  Widths, heights and coordinates are Python numbers; the tests
    build every item and bin from integers, and the model is for integer
    widths and heights.  They are modelled as [Z].  A function called on
    integers computes on Python integers, which are exact.  In a run of
    [pack] the positions start from the float [0.0], so the sums and
    differences of the run are binary64 numbers: they are the integers of
    the model as long as they stay within 2^53.  The theorems about the
    geometry of a run therefore bound the sides of the bins and items
    ([exact_sum_bound], [exact_side]); within the bound every number the run
    computes is an integer that binary64 holds exactly.

    Strings are sequences of bytes (UTF-8).

    Objects.  [Item] objects are mutated in place ([set_position]) and the
    same object is shared between the caller's item list and the [items]
    list of every bin it was appended to.  Items therefore live in a store
    indexed by references; item lists hold references.  A bin list is a
    list of bin states: a bin is identified with its position in the list.

    Exceptions.  A [ValueError] raised in the middle of a run leaves the
    mutations done so far in place, so a run yields the final store and
    bins together with an outcome.

    Classes.  The strategies import [Item] and [Bin] from their own
    package; [Item] is the class of binpacking/models/item.py and [Bin] the
    class of optimalbins/models/bin.py, for the four strategies alike.

    Comparisons.  [a > b] and [a >= b] of the source are written [b <? a]
    and [b <=? a]. *)

From Stdlib Require Import ZArith Bool String Ascii DecimalString Arith Lia List Permutation.
Import ListNotations.
Open Scope string_scope.
Open Scope list_scope.
Open Scope Z_scope.

(* ================================================================== *)
(** * Data model *)
(* ================================================================== *)

(** A rectangle [(x, y, width, height)]  (maxrects.py, [Rect]). *)
Definition Rect : Type := (Z * Z * Z * Z)%type.

(** models/item.py, class [Item]: the attributes the strategies read or
    write.  [x], [y] start at [0.0]; [z] is [0.0] for an item with a depth
    and [None] otherwise. *)
Record Item : Type := mkItem {
  item_id : string;
  width : Z;
  height : Z;
  depth : option Z;
  x : Z;
  y : Z;
  z : option Z
}.

(** [Item.__init__] *)
Definition new_Item (id : string) (w h : Z) (d : option Z) : Item :=
  mkItem id w h d 0 0 (match d with Some _ => Some 0 | None => None end).

(** A reference to an [Item] object, and the object store. *)
Definition ref : Type := nat.
Definition store : Type := ref -> Item.

(** The store holding the objects of [l] at references [0, 1, ...]. *)
Definition store_of (l : list Item) : store :=
  fun r => nth r l (new_Item "" 0 0 None).

Definition update (st : store) (r : ref) (it : Item) : store :=
  fun k => if Nat.eqb k r then it else st k.

(** [Item.set_position(x, y, z=None)]: [z] is only written when the item
    has a depth and a [z] is given. *)
Definition Item_set_position (it : Item) (nx ny : Z) (nz : option Z) : Item :=
  mkItem (item_id it) (width it) (height it) (depth it) nx ny
         (match depth it, nz with
          | Some _, Some v => Some v
          | _, _ => z it
          end).

(** [item.set_position(x, y)] on the object behind reference [r]. *)
Definition set_position (st : store) (r : ref) (nx ny : Z) : store :=
  update st r (Item_set_position (st r) nx ny None).

(** models/bin.py, class [Bin].  [items] holds references, in placement
    order.  [free_rectangles] is the attribute MaxRects2D.pack assigns
    after the run; [None] while it has not been assigned. *)
Record Bin : Type := mkBin {
  bin_id : string;
  bin_width : Z;
  bin_height : Z;
  bin_depth : option Z;
  items : list ref;
  free_rectangles : option (list Rect)
}.

(** [Bin.__init__] *)
Definition new_Bin (id : string) (w h : Z) (d : option Z) : Bin :=
  mkBin id w h d [] None.

(** [Bin.can_fit] *)
Definition can_fit (b : Bin) (it : Item) : bool :=
  match bin_depth b with
  | Some bd =>
      match depth it with
      | None => false
      | Some d =>
          (width it <=? bin_width b) && (height it <=? bin_height b) && (d <=? bd)
      end
  | None => (width it <=? bin_width b) && (height it <=? bin_height b)
  end.

(** [Bin.add_item]: the bin after the call and the returned boolean. *)
Definition add_item (b : Bin) (st : store) (r : ref) : Bin * bool :=
  if can_fit b (st r)
  then (mkBin (bin_id b) (bin_width b) (bin_height b) (bin_depth b)
              (items b ++ [r]) (free_rectangles b), true)
  else (b, false).

(** How a run ended. *)
Inductive outcome : Type :=
| Returned
| ValueError (msg : string)
| IndexError.

(** The result of a [pack] run: the store, the bin list and the outcome. *)
Definition run : Type := (store * list Bin * outcome)%type.

Definition run_store (r : run) : store := fst (fst r).
Definition run_bins (r : run) : list Bin := snd (fst r).
Definition run_outcome (r : run) : outcome := snd r.

(** [f"bin_{n}"] *)
Definition bin_name (n : nat) : string :=
  ("bin_" ++ NilZero.string_of_uint (Nat.to_uint n))%string.

(** [type(base_bin)(id=f"bin_{len(bins)+1}", width=..., height=..., depth=...)] *)
Definition clone_bin (bins : list Bin) (base_bin : Bin) : Bin :=
  new_Bin (bin_name (length bins + 1)%nat) (bin_width base_bin) (bin_height base_bin)
          (bin_depth base_bin).

(* ================================================================== *)
(** * Bottom-Left  (binpacking/algorithms/_2d/bottom_left.py) *)
(* ================================================================== *)

Module BottomLeft2D.

(** [rectangles_overlap] *)
Definition rectangles_overlap (x1 y1 w1 h1 x2 y2 w2 h2 : Z) : bool :=
  if (x1 + w1 <=? x2) || (x2 + w2 <=? x1) || (y1 + h1 <=? y2) || (y2 + h2 <=? y1)
  then false
  else true.

(** [overlap]: the loop over [bin.items] returns [True] at the first placed
    item that overlaps. *)
Fixpoint overlap_loop (st : store) (placed : list ref) (it : Item) (cx cy : Z) : bool :=
  match placed with
  | [] => false
  | p :: rest =>
      if rectangles_overlap cx cy (width it) (height it)
                            (x (st p)) (y (st p)) (width (st p)) (height (st p))
      then true
      else overlap_loop st rest it cx cy
  end.

Definition overlap (st : store) (b : Bin) (it : Item) (cx cy : Z) : bool :=
  overlap_loop st (items b) it cx cy.

(** The candidate corners: [(0.0, 0.0)], then for every placed item the
    corner to its right and the corner above it.  The sums are binary64 in
    the source; see the note on numbers. *)
Fixpoint candidates_of (st : store) (placed : list ref) : list (Z * Z) :=
  match placed with
  | [] => []
  | p :: rest =>
      (x (st p) + width (st p), y (st p))
        :: (x (st p), y (st p) + height (st p))
        :: candidates_of st rest
  end.

Definition candidate_positions (st : store) (b : Bin) : list (Z * Z) :=
  (0, 0) :: candidates_of st (items b).

(** The filter of [find_position]. *)
Definition valid_candidate (st : store) (b : Bin) (it : Item) (c : Z * Z) : bool :=
  let '(cx, cy) := c in
  if (cx + width it <=? bin_width b) && (cy + height it <=? bin_height b)
  then negb (overlap st b it cx cy)
  else false.

(** [valid_candidates.sort(key=lambda pos: (pos[1], pos[0]))]: a stable
    sort on the key [(y, x)], compared as Python compares tuples. *)
Definition key_lt (p q : Z * Z) : bool :=
  (snd p <? snd q) || ((snd p =? snd q) && (fst p <? fst q)).

Fixpoint insert_by_key (p : Z * Z) (l : list (Z * Z)) : list (Z * Z) :=
  match l with
  | [] => [p]
  | q :: l' => if key_lt q p then q :: insert_by_key p l' else p :: q :: l'
  end.

Fixpoint sort_by_key (l : list (Z * Z)) : list (Z * Z) :=
  match l with
  | [] => []
  | p :: l' => insert_by_key p (sort_by_key l')
  end.

(** [find_position] *)
Definition find_position (st : store) (b : Bin) (it : Item) : option (Z * Z) :=
  let valid_candidates := filter (valid_candidate st b it) (candidate_positions st b) in
  match sort_by_key valid_candidates with
  | [] => None
  | c :: _ => Some c
  end.

(** The inner loop of [pack]: the bins are tried in order and the loop
    breaks at the first one with a position.  [None]: [placed] stayed
    [False]. *)
Fixpoint try_bins (st : store) (r : ref) (bins : list Bin) : option (store * list Bin) :=
  match bins with
  | [] => None
  | b :: rest =>
      match find_position st b (st r) with
      | Some (cx, cy) =>
          let st1 := set_position st r cx cy in
          Some (st1, fst (add_item b st1 r) :: rest)
      | None =>
          match try_bins st r rest with
          | Some (st1, rest1) => Some (st1, b :: rest1)
          | None => None
          end
      end
  end.

(** [pack] *)
Fixpoint pack (st : store) (its : list ref) (bins : list Bin) : run :=
  match its with
  | [] => (st, bins, Returned)
  | r :: rest =>
      match try_bins st r bins with
      | Some (st1, bins1) => pack st1 rest bins1
      | None =>
          match bins with
          | [] => (st, bins, ValueError "No hay un bin base definido para crear uno nuevo.")
          | base_bin :: _ =>
              let new_bin := clone_bin bins base_bin in
              let st1 := set_position st r 0 0 in
              let new_bin1 := fst (add_item new_bin st1 r) in
              pack st1 rest (bins ++ [new_bin1])
          end
      end
  end.

End BottomLeft2D.

(* ================================================================== *)
(** * First-Fit  (binpacking/algorithms/_2d/first_fit.py) *)
(* ================================================================== *)

Module FirstFit2D.

(** The inner loop of [pack]; [None]: [placed] stayed [False]. *)
Fixpoint try_bins (st : store) (r : ref) (bins : list Bin) : option (list Bin) :=
  match bins with
  | [] => None
  | b :: rest =>
      if can_fit b (st r)
      then Some (fst (add_item b st r) :: rest)
      else match try_bins st r rest with
           | Some rest1 => Some (b :: rest1)
           | None => None
           end
  end.

(** [pack]: the item's position is never written. *)
Fixpoint pack (st : store) (its : list ref) (bins : list Bin) : run :=
  match its with
  | [] => (st, bins, Returned)
  | r :: rest =>
      match try_bins st r bins with
      | Some bins1 => pack st rest bins1
      | None =>
          match bins with
          | [] => (st, bins, ValueError "No hay bins iniciales definidos para crear uno nuevo.")
          | base_bin :: _ =>
              let new_bin := clone_bin bins base_bin in
              let new_bin1 := fst (add_item new_bin st r) in
              pack st rest (bins ++ [new_bin1])
          end
      end
  end.

End FirstFit2D.

(* ================================================================== *)
(** * Heuristic names *)
(* ================================================================== *)

(** [str.lower()] on ASCII letters (the admitted names are ASCII). *)
Definition lower_ascii (c : ascii) : ascii :=
  let n := nat_of_ascii c in
  if ((65 <=? n) && (n <=? 90))%nat then ascii_of_nat (n + 32) else c.

Fixpoint lower (s : string) : string :=
  match s with
  | EmptyString => EmptyString
  | String c s' => String (lower_ascii c) (lower s')
  end.

(** [s.replace(c, "")] for a one-character [c]. *)
Fixpoint remove_char (c : ascii) (s : string) : string :=
  match s with
  | EmptyString => EmptyString
  | String d s' => if Ascii.eqb d c then remove_char c s' else String d (remove_char c s')
  end.

(* ================================================================== *)
(** * Guillotine  (optimalbins/algorithms/_2d/guillotine.py) *)
(* ================================================================== *)

Module Guillotine2D.

(** [find_position]: the first free rectangle the item fits in, with its
    index. *)
Fixpoint find_position_from (idx : nat) (free : list Rect) (it : Item)
  : option (Z * Z * nat) :=
  match free with
  | [] => None
  | (rx, ry, rwidth, rheight) :: rest =>
      if (width it <=? rwidth) && (height it <=? rheight)
      then Some (rx, ry, idx)
      else find_position_from (S idx) rest it
  end.

Definition find_position (free : list Rect) (it : Item) : option (Z * Z * nat) :=
  find_position_from 0 free it.

(** [_split_default] *)
Definition _split_default (rect : Rect) (it : Item) (px py : Z) : list Rect :=
  let '(rx, ry, rwidth, rheight) := rect in
  let right_width := (rx + rwidth) - (px + width it) in
  let new_rectangles :=
    if 0 <? right_width then [(px + width it, py, right_width, height it)] else [] in
  let top_height := (ry + rheight) - (py + height it) in
  if 0 <? top_height
  then new_rectangles ++ [(rx, py + height it, rwidth, top_height)]
  else new_rectangles.

(** [_split_alternative] *)
Definition _split_alternative (rect : Rect) (it : Item) (px py : Z) : list Rect :=
  let '(rx, ry, rwidth, rheight) := rect in
  let horizontal_width := (rx + rwidth) - (px + width it) in
  let new_rectangles :=
    if 0 <? horizontal_width then [(px + width it, py, horizontal_width, rheight)] else [] in
  let vertical_height := (ry + rheight) - (py + height it) in
  if 0 <? vertical_height
  then new_rectangles ++ [(rx, py + height it, width it, vertical_height)]
  else new_rectangles.

(** [_split_shorter_side] *)
Definition _split_shorter_side (rect : Rect) (it : Item) (px py : Z) : list Rect :=
  let '(rx, ry, rwidth, rheight) := rect in
  let right_leftover := (rx + rwidth) - (px + width it) in
  let top_leftover := (ry + rheight) - (py + height it) in
  if right_leftover <=? top_leftover
  then
    (if 0 <? right_leftover then [(px + width it, py, right_leftover, height it)] else [])
      ++ (if 0 <? top_leftover then [(rx, py + height it, rwidth, top_leftover)] else [])
  else
    (if 0 <? top_leftover then [(rx, py + height it, rwidth, top_leftover)] else [])
      ++ (if 0 <? right_leftover then [(px + width it, py, right_leftover, rheight)] else []).

(** [_split_longer_side] *)
Definition _split_longer_side (rect : Rect) (it : Item) (px py : Z) : list Rect :=
  let '(rx, ry, rwidth, rheight) := rect in
  let right_leftover := (rx + rwidth) - (px + width it) in
  let top_leftover := (ry + rheight) - (py + height it) in
  if top_leftover <=? right_leftover
  then
    (if 0 <? right_leftover then [(px + width it, py, right_leftover, height it)] else [])
      ++ (if 0 <? top_leftover then [(rx, py + height it, rwidth, top_leftover)] else [])
  else
    (if 0 <? top_leftover then [(rx, py + height it, rwidth, top_leftover)] else [])
      ++ (if 0 <? right_leftover then [(px + width it, py, right_leftover, rheight)] else []).

(** [key = self.heuristic.lower().replace(" ", "").replace("_", "")] *)
Definition heuristic_key (heuristic : string) : string :=
  remove_char "_"%char (remove_char " "%char (lower heuristic)).

(** [split_rectangle]; [None] is the [ValueError] of the last branch. *)
Definition split_rectangle (heuristic : string) (rect : Rect) (it : Item) (px py : Z)
  : option (list Rect) :=
  let key := heuristic_key heuristic in
  if String.eqb key "default" then Some (_split_default rect it px py)
  else if String.eqb key "alternative" then Some (_split_alternative rect it px py)
  else if String.eqb key "shorterside" || String.eqb key "shorter"
       then Some (_split_shorter_side rect it px py)
  else if String.eqb key "longerside" || String.eqb key "longer"
       then Some (_split_longer_side rect it px py)
  else None.

(** [list.pop(i)]: the element and the list without it; [None] when the
    index is out of range. *)
Fixpoint pop (l : list Rect) (i : nat) : option (Rect * list Rect) :=
  match l, i with
  | [], _ => None
  | r :: l', O => Some (r, l')
  | r :: l', S i' =>
      match pop l' i' with
      | Some (u, l'') => Some (u, r :: l'')
      | None => None
      end
  end.

(** The loop over the items for one bin: the store, the bin and the free
    rectangles after it, and whether it raised. *)
Fixpoint pack_items (heuristic : string) (st : store) (b : Bin) (free : list Rect)
                    (its : list ref) : store * Bin * list Rect * outcome :=
  match its with
  | [] => (st, b, free, Returned)
  | r :: rest =>
      match find_position free (st r) with
      | Some (px, py, rect_index) =>
          let st1 := set_position st r px py in
          let b1 := fst (add_item b st1 r) in
          match pop free rect_index with
          | None => (st1, b1, free, IndexError)
          | Some (used_rect, free1) =>
              match split_rectangle heuristic used_rect (st1 r) px py with
              | None =>
                  (st1, b1, free1,
                   ValueError ("Heurística desconocida: " ++ heuristic)%string)
              | Some new_rects => pack_items heuristic st1 b1 (free1 ++ new_rects) rest
              end
          end
      | None => pack_items heuristic st b free rest
      end
  end.

(** [pack]: every bin in turn is offered every item.  The first free
    rectangle is [(0.0, 0.0, bin.width, bin.height)]: the numbers of the
    run are binary64 in the source; see the note on numbers. *)
Fixpoint pack (heuristic : string) (st : store) (its : list ref) (bins : list Bin) : run :=
  match bins with
  | [] => (st, [], Returned)
  | b :: rest =>
      match pack_items heuristic st b [(0, 0, bin_width b, bin_height b)] its with
      | (st1, b1, _, Returned) =>
          let '(st2, rest2, out) := pack heuristic st1 its rest in
          (st2, b1 :: rest2, out)
      | (st1, b1, _, out) => (st1, b1 :: rest, out)
      end
  end.

End Guillotine2D.

(* ================================================================== *)
(** * Max-Rects  (optimalbins/algorithms/_2d/maxrects.py) *)
(* ================================================================== *)

Module MaxRects2D.

(** [calculate_contact_score] *)
Definition calculate_contact_score (rx ry rwidth rheight : Z) (it : Item) : Z :=
  rwidth + rheight.

(** [evaluate_position] *)
Definition evaluate_position (heuristic : string) (rx ry rwidth rheight : Z) (it : Item) : Z :=
  let leftover_horiz := rwidth - width it in
  let leftover_vert := rheight - height it in
  let key := lower heuristic in
  if String.eqb key "best_short_side_fit" then Z.min leftover_horiz leftover_vert
  else if String.eqb key "best_long_side_fit" then Z.max leftover_horiz leftover_vert
  else if String.eqb key "best_area_fit" then (rwidth * rheight) - (width it * height it)
  else if String.eqb key "bottom_left" then ry * 10000 + rx
  else if String.eqb key "contact_point_rule"
       then - calculate_contact_score rx ry rwidth rheight it
  else Z.min leftover_horiz leftover_vert.

(** The loop variables of [find_best_position]. *)
Record best : Type := mkBest {
  best_score : option Z;
  best_position : option (Z * Z);
  best_index : Z
}.

(** The loop of [find_best_position] from index [idx] on. *)
Fixpoint scan (heuristic : string) (it : Item) (idx : nat) (free : list Rect) (bst : best)
  : best :=
  match free with
  | [] => bst
  | (rx, ry, rwidth, rheight) :: rest =>
      if (width it <=? rwidth) && (height it <=? rheight)
      then
        let score := evaluate_position heuristic rx ry rwidth rheight it in
        if match best_score bst with None => true | Some bs => score <? bs end
        then scan heuristic it (S idx) rest (mkBest (Some score) (Some (rx, ry)) (Z.of_nat idx))
        else scan heuristic it (S idx) rest bst
      else scan heuristic it (S idx) rest bst
  end.

(** [find_best_position] *)
Definition find_best_position (heuristic : string) (free : list Rect) (it : Item)
  : option (Z * Z * Z) :=
  let bst := scan heuristic it 0 free (mkBest None None (-1)) in
  match best_position bst with
  | Some (bx, byy) => Some (bx, byy, best_index bst)
  | None => None
  end.

(** [rectangles_intersect] *)
Definition rectangles_intersect (fr pr : Rect) : bool :=
  let '(fx, fy, fw, fh) := fr in
  let '(px, py, pw, ph) := pr in
  negb ((px + pw <=? fx) || (fx + fw <=? px) || (py + ph <=? fy) || (fy + fh <=? py)).

(** [split_free_rectangle] *)
Definition split_free_rectangle (fr pr : Rect) : list Rect :=
  let '(fx, fy, fw, fh) := fr in
  let '(px, py, pw, ph) := pr in
  let new_rects :=
    (if py + ph <? fy + fh then [(fx, py + ph, fw, (fy + fh) - (py + ph))] else [])
      ++ (if fy <? py then [(fx, fy, fw, py - fy)] else [])
      ++ (if fx <? px then [(fx, fy, px - fx, fh)] else [])
      ++ (if px + pw <? fx + fw then [(px + pw, fy, (fx + fw) - (px + pw), fh)] else []) in
  filter (fun r : Rect => let '(_, _, w, h) := r in (0 <? w) && (0 <? h)) new_rects.

(** The containment test of [prune_free_rectangles]: [rect] lies inside
    [other], bounds included. *)
Definition contained_in (rect other : Rect) : bool :=
  let '(fx, fy, fw, fh) := rect in
  let '(ox, oy, ow, oh) := other in
  (ox <=? fx) && (oy <=? fy) && (fx + fw <=? ox + ow) && (fy + fh <=? oy + oh).

(** The inner loop of [prune_free_rectangles] for the rectangle at index
    [i]: [j] runs over the whole list, skips [i == j], and the loop breaks
    with [contained = True] at the first rectangle that contains [rect]. *)
Fixpoint contained_scan (i : nat) (rect : Rect) (j : nat) (others : list Rect) : bool :=
  match others with
  | [] => false
  | other :: rest =>
      if Nat.eqb i j then contained_scan i rect (S j) rest
      else if contained_in rect other then true
      else contained_scan i rect (S j) rest
  end.

(** The outer loop of [prune_free_rectangles] from index [i] on. *)
Fixpoint prune_from (all : list Rect) (i : nat) (todo : list Rect) : list Rect :=
  match todo with
  | [] => []
  | rect :: rest =>
      if contained_scan i rect 0 all
      then prune_from all (S i) rest
      else rect :: prune_from all (S i) rest
  end.

(** [prune_free_rectangles] *)
Definition prune_free_rectangles (free : list Rect) : list Rect :=
  prune_from free 0 free.

(** The loop of [update_free_rectangles]. *)
Fixpoint updated_rectangles (free : list Rect) (placed_rect : Rect) : list Rect :=
  match free with
  | [] => []
  | fr :: rest =>
      if rectangles_intersect fr placed_rect
      then split_free_rectangle fr placed_rect ++ updated_rectangles rest placed_rect
      else fr :: updated_rectangles rest placed_rect
  end.

(** [update_free_rectangles] *)
Definition update_free_rectangles (free : list Rect) (placed_rect : Rect) : list Rect :=
  prune_free_rectangles (updated_rectangles free placed_rect).

(** The loop over the items for one bin. *)
Fixpoint pack_items (heuristic : string) (st : store) (b : Bin) (free : list Rect)
                    (its : list ref) : store * Bin * list Rect :=
  match its with
  | [] => (st, b, free)
  | r :: rest =>
      match find_best_position heuristic free (st r) with
      | Some (px, py, _) =>
          let st1 := set_position st r px py in
          let b1 := fst (add_item b st1 r) in
          let placed_rect : Rect := (px, py, width (st1 r), height (st1 r)) in
          pack_items heuristic st1 b1 (update_free_rectangles free placed_rect) rest
      | None => pack_items heuristic st b free rest
      end
  end.

(** [bin.free_rectangles = free_rectangles] *)
Definition set_free_rectangles (b : Bin) (free : list Rect) : Bin :=
  mkBin (bin_id b) (bin_width b) (bin_height b) (bin_depth b) (items b) (Some free).

(** [pack]: every bin in turn is offered every item; no statement of it
    raises.  The first free rectangle is
    [(0.0, 0.0, bin.width, bin.height)]: the numbers of the run are binary64
    in the source; see the note on numbers. *)
Fixpoint pack_bins (heuristic : string) (st : store) (its : list ref) (bins : list Bin)
  : store * list Bin :=
  match bins with
  | [] => (st, [])
  | b :: rest =>
      let '(st1, b1, free) :=
        pack_items heuristic st b [(0, 0, bin_width b, bin_height b)] its in
      let b2 := set_free_rectangles b1 (prune_free_rectangles free) in
      let '(st2, rest2) := pack_bins heuristic st1 its rest in
      (st2, b2 :: rest2)
  end.

Definition pack (heuristic : string) (st : store) (its : list ref) (bins : list Bin) : run :=
  (pack_bins heuristic st its bins, Returned).

End MaxRects2D.

(* ================================================================== *)
(** * Predicates of the specification *)
(* ================================================================== *)

(** The dimension check in the words of the specification: the item is no
    wider and no higher than the bin and, for a bin with a depth, the item
    has a depth that is no larger than the bin's. *)
Definition fits_dimensions (b : Bin) (it : Item) : Prop :=
  width it <= bin_width b /\
  height it <= bin_height b /\
  match bin_depth b with
  | Some bd => exists d, depth it = Some d /\ d <= bd
  | None => True
  end.

(** The life of a bin: it is created empty by the constructor; afterwards
    items are appended through [add_item] only, the strategies move items
    with [set_position], and MaxRects2D assigns [free_rectangles]. *)
Inductive bin_reachable (id : string) (w h : Z) (d : option Z) : store -> Bin -> Prop :=
| reach_new : forall st, bin_reachable id w h d st (new_Bin id w h d)
| reach_add_item : forall st b r,
    bin_reachable id w h d st b ->
    bin_reachable id w h d st (fst (add_item b st r))
| reach_set_position : forall st b r nx ny,
    bin_reachable id w h d st b ->
    bin_reachable id w h d (set_position st r nx ny) b
| reach_set_free : forall st b free,
    bin_reachable id w h d st b ->
    bin_reachable id w h d st (MaxRects2D.set_free_rectangles b free).

(** [overlaps(item1, item2)]: the overlap test on the rectangles two items
    occupy. *)
Definition overlaps (i1 i2 : Item) : bool :=
  BottomLeft2D.rectangles_overlap (x i1) (y i1) (width i1) (height i1)
                                  (x i2) (y i2) (width i2) (height i2).

(** The in-bounds property of a placed item. *)
Definition in_bounds (b : Bin) (it : Item) : Prop :=
  0 <= x it /\ 0 <= y it /\
  x it + width it <= bin_width b /\ y it + height it <= bin_height b.



(** A free rectangle has room for the item. *)
Definition has_room (r : Rect) (it : Item) : bool :=
  let '(_, _, rwidth, rheight) := r in
  (width it <=? rwidth) && (height it <=? rheight).

(** The score of [best_long_side_fit] in the words of the specification:
    the larger of the two leftovers. *)
Definition long_side_leftover (r : Rect) (it : Item) : Z :=
  let '(_, _, rwidth, rheight) := r in
  Z.max (rwidth - width it) (rheight - height it).

(** The item is no larger than the bin's full rectangle. *)
Definition fits_bin_area (b : Bin) (it : Item) : bool :=
  (width it <=? bin_width b) && (height it <=? bin_height b).

(** The keys [Guillotine2D.split_rectangle] has a branch for. *)
Definition guillotine_keys : list string :=
  ["default"; "alternative"; "shorterside"; "shorter"; "longerside"; "longer"].

(** The keys [MaxRects2D.evaluate_position] has a branch for. *)
Definition maxrects_keys : list string :=
  ["best_short_side_fit"; "best_long_side_fit"; "best_area_fit"; "bottom_left";
   "contact_point_rule"].

(** The state of one bin that Bottom-Left maintains: no reference occurs
    twice in the item list, every item lies within the bin, and no two
    items overlap. *)
Definition bin_ok (st : store) (b : Bin) : Prop :=
  NoDup (items b) /\
  (forall p, In p (items b) -> in_bounds b (st p)) /\
  (forall p q, In p (items b) -> In q (items b) -> p <> q ->
               overlaps (st p) (st q) = false).

(** The item behind [p] is in the item list of one of the bins. *)
Definition placed_in (bins : list Bin) (p : ref) : Prop :=
  exists b, In b bins /\ In p (items b).

(** The references in the item lists of the bins, bin after bin. *)
Definition placed_refs (bins : list Bin) : list ref := flat_map items bins.

(** Strictly positive width and height. *)
Definition positive_size (it : Item) : Prop :=
  0 < width it /\ 0 < height it.

(** The score [find_best_position] gives a free rectangle. *)
Definition rect_score (heuristic : string) (it : Item) (r : Rect) : Z :=
  let '(rx, ry, rwidth, rheight) := r in
  MaxRects2D.evaluate_position heuristic rx ry rwidth rheight it.

(** One iteration of the loop of [find_best_position]. *)
Definition visit (heuristic : string) (it : Item) (idx : nat) (r : Rect)
                 (bst : MaxRects2D.best) : MaxRects2D.best :=
  if has_room r it
  then if match MaxRects2D.best_score bst with
          | None => true
          | Some bs => rect_score heuristic it r <? bs
          end
       then MaxRects2D.mkBest (Some (rect_score heuristic it r))
                              (Some (fst (fst (fst r)), snd (fst (fst r))))
                              (Z.of_nat idx)
       else bst
  else bst.

(** What the loop variables of [find_best_position] hold after the scan of
    [free]: nothing if no rectangle has room; otherwise the first rectangle
    of least score among those with room. *)
Definition scan_result (heuristic : string) (it : Item) (free : list Rect)
                       (bst : MaxRects2D.best) : Prop :=
  match MaxRects2D.best_position bst with
  | None =>
      MaxRects2D.best_score bst = None /\ forall r, In r free -> has_room r it = false
  | Some (bx, byy) =>
      exists k rw rh,
        MaxRects2D.best_index bst = Z.of_nat k /\
        nth_error free k = Some (bx, byy, rw, rh) /\
        has_room (bx, byy, rw, rh) it = true /\
        MaxRects2D.best_score bst = Some (rect_score heuristic it (bx, byy, rw, rh)) /\
        forall j r, nth_error free j = Some r -> has_room r it = true ->
                    rect_score heuristic it (bx, byy, rw, rh) <= rect_score heuristic it r /\
                    ((j < k)%nat ->
                     rect_score heuristic it (bx, byy, rw, rh) < rect_score heuristic it r)
  end.

(** The outer loop of [prune_free_rectangles] with the list split at the
    current index: [pre] are the rectangles before it. *)
Fixpoint prune_split (pre todo : list Rect) : list Rect :=
  match todo with
  | [] => []
  | rect :: rest =>
      if existsb (MaxRects2D.contained_in rect) (pre ++ rest)
      then prune_split (pre ++ [rect]) rest
      else rect :: prune_split (pre ++ [rect]) rest
  end.

(* ================================================================== *)
(** * Geometry of rectangles and free space *)
(* ================================================================== *)

(** The point [p] lies in the rectangle [r], the right and the upper edge
    excluded: rectangles that share an edge share no point. *)
Definition inside (r : Rect) (p : Z * Z) : Prop :=
  let '(rx, ry, rw, rh) := r in
  rx <= fst p < rx + rw /\ ry <= snd p < ry + rh.

(** The point [p] lies in one of the rectangles of [S]. *)
Definition inside_some (S : list Rect) (p : Z * Z) : Prop :=
  exists r, In r S /\ inside r p.

(** The rectangle an item occupies. *)
Definition item_rect (it : Item) : Rect := (x it, y it, width it, height it).

(** The full rectangle of a bin, the first free rectangle of Guillotine2D
    and MaxRects2D. *)
Definition bin_rect (b : Bin) : Rect := (0, 0, bin_width b, bin_height b).

(** The point [p] lies in the rectangle of one of the items of the bin. *)
Definition inside_item (st : store) (b : Bin) (p : Z * Z) : Prop :=
  exists q, In q (items b) /\ inside (item_rect (st q)) p.

(** No rectangle of the list intersects a later one. *)
Fixpoint pairwise_apart (l : list Rect) : Prop :=
  match l with
  | [] => True
  | r :: l' =>
      (forall o, In o l' -> MaxRects2D.rectangles_intersect r o = false) /\
      pairwise_apart l'
  end.

(** The free rectangles lie within the bin and intersect no item of the
    bin. *)
Definition free_clear (st : store) (b : Bin) (free : list Rect) : Prop :=
  (forall f, In f free -> MaxRects2D.contained_in f (bin_rect b) = true) /\
  (forall f q, In f free -> In q (items b) ->
               MaxRects2D.rectangles_intersect f (item_rect (st q)) = false).

(** The free rectangles cover the bin's rectangle less the items of the
    bin, no point more and no point less. *)
Definition free_exact (st : store) (b : Bin) (free : list Rect) : Prop :=
  forall p, inside_some free p <-> inside (bin_rect b) p /\ ~ inside_item st b p.

(** No rectangle of the list lies inside a rectangle at another place of
    the list. *)
Definition antichain (l : list Rect) : Prop :=
  forall pre r post, l = pre ++ r :: post ->
    forall o, In o (pre ++ post) -> MaxRects2D.contained_in r o = false.

(** The order of the keys [(y, x)] of Bottom-Left: [p] does not come after
    [q]. *)
Definition key_le (p q : Z * Z) : Prop :=
  snd p < snd q \/ (snd p = snd q /\ fst p <= fst q).

(** Two items are separated: one lies entirely to the left of, to the right
    of, below or above the other.  Items that share an edge are separated. *)
Definition separated (i1 i2 : Item) : Prop :=
  x i1 + width i1 <= x i2 \/ x i2 + width i2 <= x i1 \/
  y i1 + height i1 <= y i2 \/ y i2 + height i2 <= y i1.

(** The same for two rectangles. *)
Definition rect_apart (r o : Rect) : Prop :=
  let '(rx, ry, rw, rh) := r in
  let '(ox, oy, ow, oh) := o in
  ox + ow <= rx \/ rx + rw <= ox \/ oy + oh <= ry \/ ry + rh <= oy.

(** The rectangle [r] lies within the rectangle [o], edges included. *)
Definition rect_within (r o : Rect) : Prop :=
  let '(rx, ry, rw, rh) := r in
  let '(ox, oy, ow, oh) := o in
  ox <= rx /\ oy <= ry /\ rx + rw <= ox + ow /\ ry + rh <= oy + oh.

(** The rectangles at two different places of the list are apart. *)
Definition apart_at_places (l : list Rect) : Prop :=
  forall pre a mid c post, l = pre ++ a :: mid ++ c :: post -> rect_apart a c.

(** The largest side for which the sum of a position within a bin and a
    side is at most 2^53, and so exact in binary64. *)
Definition exact_sum_bound : Z := 2 ^ 52.

(** The largest side for which also the area of a rectangle within a bin
    and the score [y * 10000 + x] are below 2^53. *)
Definition exact_side : Z := 2 ^ 26.

(** The candidate corners of Bottom-Left in a bin: the origin, and for every
    item of the bin the corner to its right and the corner above it. *)
Definition is_corner (st : store) (b : Bin) (c : Z * Z) : Prop :=
  c = (0, 0) \/
  exists p, In p (items b) /\
    (c = (x (st p) + width (st p), y (st p)) \/
     c = (x (st p), y (st p) + height (st p))).

(** What Bottom-Left asks of a corner for an item: put there, the item does
    not pass the right and the upper edge of the bin and is separated from
    every item of the bin.  The left and the lower edge are not asked
    about. *)
Definition corner_free (st : store) (b : Bin) (it : Item) (c : Z * Z) : Prop :=
  fst c + width it <= bin_width b /\
  snd c + height it <= bin_height b /\
  forall p, In p (items b) ->
    fst c + width it <= x (st p) \/ x (st p) + width (st p) <= fst c \/
    snd c + height it <= y (st p) \/ y (st p) + height (st p) <= snd c.

(** What a strategy must leave alone in a bin: its identifier and its
    dimensions. *)
Definition bin_shape (b : Bin) : string * Z * Z * option Z :=
  (bin_id b, bin_width b, bin_height b, bin_depth b).

(** The dimensions of a bin. *)
Definition bin_dims (b : Bin) : Z * Z * option Z :=
  (bin_width b, bin_height b, bin_depth b).

(** What a guillotine cut must yield: pieces inside the free rectangle that
    keep clear of the placed rectangle and of one another, and that together
    with the placed rectangle cover the free rectangle. *)
Definition clean_split (rect placed : Rect) (pieces : list Rect) : Prop :=
  (forall f, In f pieces ->
     MaxRects2D.contained_in f rect = true /\
     MaxRects2D.rectangles_intersect f placed = false) /\
  pairwise_apart pieces /\
  (forall p, inside rect p <-> inside placed p \/ inside_some pieces p).

(* ================================================================== *)
(** * The store *)
(* ================================================================== *)

Lemma update_same st r it : update st r it r = it.
Proof. unfold update. now rewrite Nat.eqb_refl. Qed.

Lemma update_other st r it k : k <> r -> update st r it k = st k.
Proof. intros H. unfold update. apply Nat.eqb_neq in H. now rewrite H. Qed.

Lemma set_position_same st r nx ny :
  set_position st r nx ny r = Item_set_position (st r) nx ny None.
Proof. apply update_same. Qed.

Lemma set_position_other st r nx ny k : k <> r -> set_position st r nx ny k = st k.
Proof. apply update_other. Qed.

(** Moving an item changes no dimension of any item. *)
Lemma set_position_dims st r nx ny k :
  width (set_position st r nx ny k) = width (st k) /\
  height (set_position st r nx ny k) = height (st k) /\
  depth (set_position st r nx ny k) = depth (st k).
Proof.
  destruct (Nat.eq_dec k r) as [->|Hne].
  - rewrite set_position_same. now cbn.
  - now rewrite set_position_other.
Qed.

Lemma set_position_xy st r nx ny :
  x (set_position st r nx ny r) = nx /\ y (set_position st r nx ny r) = ny.
Proof. rewrite set_position_same. now cbn. Qed.

(* ================================================================== *)
(** * Bin.can_fit and Bin.add_item *)
(* ================================================================== *)

Section BinFacts.

Lemma can_fit_spec b it : can_fit b it = true <-> fits_dimensions b it.
Proof.
  unfold can_fit, fits_dimensions.
  destruct (bin_depth b) as [bd|].
  - destruct (depth it) as [d|].
    + rewrite !andb_true_iff, !Z.leb_le. split.
      * intros [[Hw Hh] Hd]. repeat split; trivial. now exists d.
      * intros (Hw & Hh & d' & Heq & Hd). injection Heq as <-. tauto.
    + split; [discriminate|]. intros (_ & _ & d' & Heq & _). discriminate.
  - rewrite andb_true_iff, !Z.leb_le. tauto.
Qed.

Lemma can_fit_set_position b st r nx ny k :
  can_fit b (set_position st r nx ny k) = can_fit b (st k).
Proof.
  destruct (set_position_dims st r nx ny k) as (Hw & Hh & Hd).
  unfold can_fit. now rewrite Hw, Hh, Hd.
Qed.

Lemma add_item_dims b st r :
  bin_width (fst (add_item b st r)) = bin_width b /\
  bin_height (fst (add_item b st r)) = bin_height b /\
  bin_depth (fst (add_item b st r)) = bin_depth b.
Proof. unfold add_item. now destruct (can_fit b (st r)). Qed.

Lemma add_item_items b st r :
  items (fst (add_item b st r)) = if can_fit b (st r) then items b ++ [r] else items b.
Proof. unfold add_item. now destruct (can_fit b (st r)). Qed.

Lemma can_fit_same_dims b b' it :
  bin_width b' = bin_width b -> bin_height b' = bin_height b ->
  bin_depth b' = bin_depth b -> can_fit b' it = can_fit b it.
Proof. intros Hw Hh Hd. unfold can_fit. now rewrite Hw, Hh, Hd. Qed.

(** Every item of a reachable bin passes the bin's dimension check. *)
Lemma bin_reachable_fits id w h d st b :
  bin_reachable id w h d st b ->
  forall r, In r (items b) -> can_fit b (st r) = true.
Proof.
  induction 1 as [st|st b r Hreach IH|st b r nx ny Hreach IH|st b free Hreach IH];
    intros k Hin.
  - destruct Hin.
  - destruct (add_item_dims b st r) as (Hw & Hh & Hd).
    rewrite (can_fit_same_dims b _ (st k) Hw Hh Hd).
    rewrite add_item_items in Hin.
    destruct (can_fit b (st r)) eqn:Hfit; [|now apply IH].
    apply in_app_or in Hin as [Hin|[<-|[]]]; [now apply IH|exact Hfit].
  - rewrite can_fit_set_position. now apply IH.
  - now apply IH.
Qed.

End BinFacts.

(** C10.  [Bin.add_item] appends the item to the bin's item list and returns
    [True] exactly when the item passes the bin's dimension check (no wider
    and no higher than the bin and, for a bin with a depth, an item depth
    that is at most the bin's); otherwise it returns [False] and leaves the
    bin unchanged.  Hence every item in the item list of a bin that was
    created by the constructor and filled through [add_item] passes that
    check. *)
Theorem Bin_add_item_dimension_check :
  (forall b st r,
      (fits_dimensions b (st r) ->
       snd (add_item b st r) = true /\
       items (fst (add_item b st r)) = items b ++ [r] /\
       bin_width (fst (add_item b st r)) = bin_width b /\
       bin_height (fst (add_item b st r)) = bin_height b /\
       bin_depth (fst (add_item b st r)) = bin_depth b) /\
      (~ fits_dimensions b (st r) -> add_item b st r = (b, false)) /\
      (snd (add_item b st r) = true <-> fits_dimensions b (st r))) /\
  (forall id w h d st b,
      bin_reachable id w h d st b ->
      forall r, In r (items b) -> fits_dimensions b (st r)).
Proof.
  split.
  - intros b st r. rewrite <- can_fit_spec. unfold add_item.
    destruct (can_fit b (st r)); cbn; repeat split; try tauto; try discriminate.
  - intros id w h d st b Hreach r Hin. apply can_fit_spec.
    eapply bin_reachable_fits; eauto.
Qed.

(** The check at work: a 3x3 item enters a 5x5 bin, a 6x3 item does not. *)
Lemma Bin_add_item_dimension_check_witness :
  let st := store_of [new_Item "A" 3 3 None; new_Item "B" 6 3 None] in
  let b := new_Bin "bin_1" 5 5 None in
  (snd (add_item b st 0%nat) = true /\ items (fst (add_item b st 0%nat)) = [0%nat]) /\
  add_item b st 1%nat = (b, false) /\
  fits_dimensions (fst (add_item b st 0%nat)) (st 0%nat).
Proof.
  intros st b.
  destruct Bin_add_item_dimension_check as [Hadd Hreach].
  destruct (Hadd b st 0%nat) as (Hyes & _ & _).
  destruct (Hadd b st 1%nat) as (_ & Hno & _).
  split; [|split].
  - assert (Hfit : fits_dimensions b (st 0%nat)).
    { unfold fits_dimensions; cbn; lia. }
    destruct (Hyes Hfit) as (H1 & H2 & _). split; [exact H1|exact H2].
  - apply Hno. unfold fits_dimensions; cbn; lia.
  - apply (Hreach "bin_1" 5 5 None st (fst (add_item b st 0%nat))).
    + apply reach_add_item. apply reach_new.
    + cbn. now left.
Defined.

(* ================================================================== *)
(** * Pruning of free rectangles *)
(* ================================================================== *)

Section Prune.

Import MaxRects2D.

(** Past the skipped index the inner loop is a plain search. *)
Lemma contained_scan_past i rect l : forall j,
  (i < j)%nat -> contained_scan i rect j l = existsb (contained_in rect) l.
Proof.
  induction l as [|o l IH]; intros j Hlt; cbn; [reflexivity|].
  assert (Hne : Nat.eqb i j = false) by (apply Nat.eqb_neq; lia).
  rewrite Hne. destruct (contained_in rect o); cbn; [reflexivity|].
  apply IH. lia.
Qed.

(** The inner loop searches every rectangle but the one at index [i]. *)
Lemma contained_scan_split rect0 post rect pre : forall j,
  contained_scan (j + length pre) rect j (pre ++ rect0 :: post)
  = existsb (contained_in rect) (pre ++ post).
Proof.
  induction pre as [|o pre IH]; intros j; cbn.
  - rewrite Nat.add_0_r, Nat.eqb_refl. apply contained_scan_past. lia.
  - assert (Hne : Nat.eqb (j + S (length pre)) j = false) by (apply Nat.eqb_neq; lia).
    rewrite Hne. destruct (contained_in rect o); cbn; [reflexivity|].
    replace (j + S (length pre))%nat with (S j + length pre)%nat by lia.
    apply IH.
Qed.

Lemma prune_from_split todo : forall pre,
  prune_from (pre ++ todo) (length pre) todo = prune_split pre todo.
Proof.
  induction todo as [|rect rest IH]; intros pre; cbn; [reflexivity|].
  pose proof (contained_scan_split rect rest rect pre 0) as Hscan.
  cbn [Nat.add] in Hscan. rewrite Hscan.
  specialize (IH (pre ++ [rect])).
  rewrite <- app_assoc, length_app in IH. cbn in IH.
  rewrite Nat.add_1_r in IH. rewrite IH.
  reflexivity.
Qed.

Lemma prune_free_rectangles_split S :
  prune_free_rectangles S = prune_split [] S.
Proof. exact (prune_from_split S []). Qed.

(** Pruning selects rectangles of its input. *)
Lemma prune_split_incl todo : forall pre r,
  In r (prune_split pre todo) -> In r todo.
Proof.
  induction todo as [|rect rest IH]; intros pre r; cbn; [tauto|].
  destruct (existsb _ _).
  - intros H. right. eapply IH; eauto.
  - intros [H|H]; [now left|right; eapply IH; eauto].
Qed.

Lemma existsb_false_incl (f : Rect -> bool) l l' :
  incl l' l -> existsb f l = false -> existsb f l' = false.
Proof.
  intros Hincl Hf.
  destruct (existsb f l') eqn:E; [|reflexivity].
  apply existsb_exists in E as (r & Hin & Hr).
  assert (existsb f l = true) by (apply existsb_exists; exists r; auto).
  congruence.
Qed.

(** A pruned list is left alone by a second pruning, also when the second
    pass sees fewer rectangles before the current index. *)
Lemma prune_split_fixed todo : forall pre pre',
  incl pre' pre ->
  prune_split pre' (prune_split pre todo) = prune_split pre todo.
Proof.
  induction todo as [|rect rest IH]; intros pre pre' Hincl; cbn; [reflexivity|].
  assert (Hsnoc : incl (pre' ++ [rect]) (pre ++ [rect])).
  { apply incl_app; [apply incl_appl; exact Hincl|apply incl_appr, incl_refl]. }
  destruct (existsb (contained_in rect) (pre ++ rest)) eqn:E.
  - apply IH. apply incl_appl. exact Hincl.
  - cbn.
    rewrite (existsb_false_incl _ (pre ++ rest)); [|
      apply incl_app; [apply incl_appl; exact Hincl|
                       apply incl_appr; intros r Hr; eapply prune_split_incl; eauto]| exact E].
    f_equal. apply IH. exact Hsnoc.
Qed.

(** Every rectangle of the input is kept or lies in a rectangle at another
    index. *)
Lemma prune_split_dropped todo : forall pre r,
  In r todo -> ~ In r (prune_split pre todo) ->
  exists pre' post, todo = pre' ++ r :: post /\
                    existsb (contained_in r) ((pre ++ pre') ++ post) = true.
Proof.
  induction todo as [|rect rest IH]; intros pre r Hin Hnot; [destruct Hin|].
  cbn in Hnot.
  destruct (existsb (contained_in rect) (pre ++ rest)) eqn:E.
  - destruct (list_eq_dec (fun a b : Rect =>
       ltac:(repeat decide equality) : {a = b} + {a <> b}) [r] [rect]) as [Heq|Hne].
    + injection Heq as ->. exists [], rest. split; [reflexivity|].
      now rewrite app_nil_r.
    + destruct Hin as [->|Hin]; [now elim Hne|].
      destruct (IH (pre ++ [rect]) r Hin Hnot) as (pre' & post & -> & Hex).
      exists (rect :: pre'), post. split; [reflexivity|].
      replace (pre ++ rect :: pre') with ((pre ++ [rect]) ++ pre');
        [exact Hex|now rewrite <- app_assoc].
  - destruct Hin as [->|Hin]; [elim Hnot; now left|].
    assert (Hnot' : ~ In r (prune_split (pre ++ [rect]) rest)).
    { intros H. apply Hnot. now right. }
    destruct (IH (pre ++ [rect]) r Hin Hnot') as (pre' & post & -> & Hex).
    exists (rect :: pre'), post. split; [reflexivity|].
    replace (pre ++ rect :: pre') with ((pre ++ [rect]) ++ pre');
      [exact Hex|now rewrite <- app_assoc].
Qed.


End Prune.

(** C9.  Pruning is idempotent: pruning a pruned list of free rectangles
    gives the pruned list back. *)
Theorem prune_free_rectangles_idempotent : forall S : list Rect,
  MaxRects2D.prune_free_rectangles (MaxRects2D.prune_free_rectangles S)
  = MaxRects2D.prune_free_rectangles S.
Proof.
  intros S.
  rewrite (prune_free_rectangles_split (MaxRects2D.prune_free_rectangles S)).
  rewrite (prune_free_rectangles_split S).
  apply prune_split_fixed. apply incl_refl.
Qed.

(** A rectangle that pruning drops lies inside a rectangle at another index
    of the list. *)
Lemma prune_free_rectangles_drops_contained (S : list Rect) (r : Rect) :
  In r S -> ~ In r (MaxRects2D.prune_free_rectangles S) ->
  exists pre post, S = pre ++ r :: post /\
     exists o, In o (pre ++ post) /\ MaxRects2D.contained_in r o = true.
Proof.
  rewrite prune_free_rectangles_split. intros Hin Hnot.
  destruct (prune_split_dropped S [] r Hin Hnot) as (pre & post & HS & Hex).
  exists pre, post. split; [exact HS|].
  cbn in Hex. apply existsb_exists in Hex. exact Hex.
Qed.

(** Containment is a partial order on rectangles. *)
Lemma contained_in_refl r : MaxRects2D.contained_in r r = true.
Proof.
  destruct r as [[[fx fy] fw] fh]. unfold MaxRects2D.contained_in.
  rewrite !andb_true_iff, !Z.leb_le. lia.
Qed.

Lemma contained_in_trans r o u :
  MaxRects2D.contained_in r o = true -> MaxRects2D.contained_in o u = true ->
  MaxRects2D.contained_in r u = true.
Proof.
  destruct r as [[[fx fy] fw] fh], o as [[[ox oy] ow] oh], u as [[[ux uy] uw] uh].
  unfold MaxRects2D.contained_in. rewrite !andb_true_iff, !Z.leb_le. lia.
Qed.

Lemma contained_in_antisym r o :
  MaxRects2D.contained_in r o = true -> MaxRects2D.contained_in o r = true -> r = o.
Proof.
  destruct r as [[[fx fy] fw] fh], o as [[[ox oy] ow] oh].
  unfold MaxRects2D.contained_in. rewrite !andb_true_iff, !Z.leb_le.
  intros H1 H2. repeat f_equal; lia.
Qed.

Lemma Rect_eq_dec (a b : Rect) : {a = b} + {a <> b}.
Proof. repeat decide equality. Qed.

Lemma filter_length_lt (f g : Rect -> bool) (l : list Rect) (w : Rect) :
  (forall a, f a = true -> g a = true) ->
  In w l -> g w = true -> f w = false ->
  (length (filter f l) < length (filter g l))%nat.
Proof.
  intros Hfg. induction l as [|a l IH]; intros Hin Hg Hf; [destruct Hin|].
  assert (Hle : (length (filter f l) <= length (filter g l))%nat).
  { clear -Hfg. induction l as [|b l IH]; cbn; [lia|].
    destruct (f b) eqn:Eb; [rewrite (Hfg b Eb); cbn; lia|].
    destruct (g b); cbn; lia. }
  cbn. destruct Hin as [->|Hin].
  - rewrite Hf, Hg. cbn. lia.
  - specialize (IH Hin Hg Hf).
    destruct (f a) eqn:Ea; [rewrite (Hfg a Ea); cbn; lia|].
    destruct (g a); cbn; lia.
Qed.

(** In a list without repetition every rectangle lies inside a rectangle
    that pruning keeps. *)
Lemma prune_free_rectangles_keeps_a_container (S : list Rect) :
  NoDup S ->
  forall n r, In r S ->
    (length (filter (MaxRects2D.contained_in r) S) <= n)%nat ->
    exists m, In m (MaxRects2D.prune_free_rectangles S) /\
              MaxRects2D.contained_in r m = true.
Proof.
  intros Hnd. induction n as [|n IH]; intros r Hin Hcount.
  - assert (Hr : In r (filter (MaxRects2D.contained_in r) S)).
    { apply filter_In. split; [exact Hin|apply contained_in_refl]. }
    destruct (filter (MaxRects2D.contained_in r) S); [destruct Hr|cbn in Hcount; lia].
  - destruct (in_dec Rect_eq_dec r (MaxRects2D.prune_free_rectangles S)) as [Hkept|Hdrop].
    + exists r. split; [exact Hkept|apply contained_in_refl].
    + destruct (prune_free_rectangles_drops_contained S r Hin Hdrop)
        as (pre & post & HS & o & Ho & Hro).
      assert (Hne : o <> r).
      { intros ->. rewrite HS in Hnd. apply NoDup_remove_2 in Hnd. contradiction. }
      assert (HoS : In o S).
      { rewrite HS. apply in_app_or in Ho as [Ho|Ho]; apply in_or_app;
          [now left|right; now right]. }
      destruct (IH o HoS) as (m & Hm & Hom).
      * assert (Hlt : (length (filter (MaxRects2D.contained_in o) S)
                       < length (filter (MaxRects2D.contained_in r) S))%nat).
        { apply (filter_length_lt _ _ S r); trivial.
          - intros a Ha. now apply (contained_in_trans r o a).
          - apply contained_in_refl.
          - destruct (MaxRects2D.contained_in o r) eqn:E; [|reflexivity].
            elim Hne. symmetry. now apply contained_in_antisym. }
        lia.
      * exists m. split; [exact Hm|]. now apply (contained_in_trans r o m).
Qed.


(** The containment test of the code is containment by the inequalities. *)
Lemma contained_in_within (r o : Rect) :
  MaxRects2D.contained_in r o = true <-> rect_within r o.
Proof.
  destruct r as [[[fx fy] fw] fh], o as [[[ox oy] ow] oh].
  unfold MaxRects2D.contained_in, rect_within.
  rewrite !andb_true_iff, !Z.leb_le. tauto.
Qed.

(** The intersection test of the code, when it fails, is separation by the
    inequalities. *)
Lemma rectangles_intersect_apart (r o : Rect) :
  MaxRects2D.rectangles_intersect r o = false <-> rect_apart r o.
Proof.
  destruct r as [[[fx fy] fw] fh], o as [[[ox oy] ow] oh].
  unfold MaxRects2D.rectangles_intersect, rect_apart.
  rewrite negb_false_iff, !orb_true_iff, !Z.leb_le. tauto.
Qed.




(* ================================================================== *)
(** * Guillotine split rules *)
(* ================================================================== *)

Section GuillotineSplits.

Import Guillotine2D.

Variables (rx ry rwidth rheight : Z) (it : Item) (px py : Z).

(** In their first branch both rules are the default rule. *)
Lemma _split_shorter_side_first_branch :
  (rx + rwidth) - (px + width it) <= (ry + rheight) - (py + height it) ->
  _split_shorter_side (rx, ry, rwidth, rheight) it px py
  = _split_default (rx, ry, rwidth, rheight) it px py.
Proof.
  intros Hle. cbn. apply Z.leb_le in Hle. rewrite Hle.
  destruct (0 <? rx + rwidth - (px + width it)), (0 <? ry + rheight - (py + height it));
    reflexivity.
Qed.

Lemma _split_longer_side_first_branch :
  (ry + rheight) - (py + height it) <= (rx + rwidth) - (px + width it) ->
  _split_longer_side (rx, ry, rwidth, rheight) it px py
  = _split_default (rx, ry, rwidth, rheight) it px py.
Proof.
  intros Hle. cbn. apply Z.leb_le in Hle. rewrite Hle.
  destruct (0 <? rx + rwidth - (px + width it)), (0 <? ry + rheight - (py + height it));
    reflexivity.
Qed.

End GuillotineSplits.

(** C7.  In their second branch the two rules do not emit the rectangles
    of the default rule: the right remainder gets the full height of the
    free rectangle instead of the item's height.  A 4x7 item at the corner
    of a 10x10 free rectangle ([shorter_side]) and a 7x4 item
    ([longer_side]) show it. *)
Theorem split_second_branch_differs_from_default :
  let rect : Rect := (0, 0, 10, 10) in
  (let it := new_Item "A" 4 7 None in
   Guillotine2D._split_default rect it 0 0 = [(4, 0, 6, 7); (0, 7, 10, 3)] /\
   Guillotine2D._split_shorter_side rect it 0 0 = [(0, 7, 10, 3); (4, 0, 6, 10)] /\
   ~ In (4, 0, 6, 10) (Guillotine2D._split_default rect it 0 0)) /\
  (let it := new_Item "B" 7 4 None in
   Guillotine2D._split_default rect it 0 0 = [(7, 0, 3, 4); (0, 4, 10, 6)] /\
   Guillotine2D._split_longer_side rect it 0 0 = [(0, 4, 10, 6); (7, 0, 3, 10)] /\
   ~ In (7, 0, 3, 10) (Guillotine2D._split_default rect it 0 0)).
Proof.
  cbn zeta. repeat split; try reflexivity.
  - cbn. intros [H|[H|[]]]; discriminate.
  - cbn. intros [H|[H|[]]]; discriminate.
Qed.

(** What the second branch leads to: with [shorter_side], a 10x10 bin and
    the items 4x7, 10x3 and 6x10, the third item is put at (4,0) over the
    second one, which lies at (0,7). *)
Lemma Guillotine2D_shorter_side_overlap :
  let st := store_of [new_Item "A" 4 7 None; new_Item "B" 10 3 None;
                      new_Item "C" 6 10 None] in
  let r := Guillotine2D.pack "shorter_side" st [0; 1; 2]%nat [new_Bin "bin_0" 10 10 None] in
  run_outcome r = Returned /\
  map items (run_bins r) = [[0; 1; 2]%nat] /\
  (x (run_store r 1%nat), y (run_store r 1%nat)) = (0, 7) /\
  (x (run_store r 2%nat), y (run_store r 2%nat)) = (4, 0) /\
  overlaps (run_store r 1%nat) (run_store r 2%nat) = true.
Proof. cbn zeta. repeat split; reflexivity. Qed.

(* ================================================================== *)
(** * Max-Rects: the choice of the free rectangle *)
(* ================================================================== *)

Lemma nth_error_snoc_inv {A : Type} (l : list A) (a r : A) (j : nat) :
  nth_error (l ++ [a]) j = Some r ->
  ((j < length l)%nat /\ nth_error l j = Some r) \/ (j = length l /\ r = a).
Proof.
  intros H. destruct (Nat.lt_ge_cases j (length l)) as [Hlt|Hge].
  - left. split; [exact Hlt|]. now rewrite nth_error_app1 in H.
  - right. rewrite nth_error_app2 in H by exact Hge.
    destruct (j - length l)%nat as [|n] eqn:E.
    + cbn in H. injection H as <-. split; [lia|reflexivity].
    + cbn in H. destruct n; discriminate.
Qed.

Section BestPosition.

Import MaxRects2D.

Variables (heuristic : string) (it : Item).

Lemma scan_cons idx r free bst :
  scan heuristic it idx (r :: free) bst
  = scan heuristic it (S idx) free (visit heuristic it idx r bst).
Proof.
  unfold visit, rect_score. destruct r as [[[rx ry] rw] rh]. cbn.
  destruct ((width it <=? rw) && (height it <=? rh)); [|reflexivity].
  destruct (match best_score bst with None => true | Some bs => _ end); reflexivity.
Qed.

Lemma scan_app free free' : forall idx bst,
  scan heuristic it idx (free ++ free') bst
  = scan heuristic it (idx + length free) free' (scan heuristic it idx free bst).
Proof.
  induction free as [|r free IH]; intros idx bst.
  - cbn. now rewrite Nat.add_0_r.
  - cbn [app length]. rewrite !scan_cons, IH. f_equal. lia.
Qed.

(** A rectangle with room and a smaller score becomes the best one. *)
Lemma scan_result_take free r bst :
  scan_result heuristic it free bst ->
  has_room r it = true ->
  (forall j r', nth_error free j = Some r' -> has_room r' it = true ->
                rect_score heuristic it r < rect_score heuristic it r') ->
  scan_result heuristic it (free ++ [r])
    (mkBest (Some (rect_score heuristic it r))
            (Some (fst (fst (fst r)), snd (fst (fst r)))) (Z.of_nat (length free))).
Proof.
  intros _ Hroom Hless. unfold scan_result.
  destruct r as [[[rx ry] rw] rh]. cbn [best_position best_score best_index fst snd].
  exists (length free), rw, rh.
  split; [reflexivity|]. split.
  { rewrite nth_error_app2, Nat.sub_diag; [reflexivity|lia]. }
  split; [exact Hroom|]. split; [reflexivity|].
  intros j r' Hj Hr'.
  apply nth_error_snoc_inv in Hj as [[Hj Hnth]|[-> ->]].
  - specialize (Hless j r' Hnth Hr'). split; [lia|intros _; exact Hless].
  - split; [apply Z.le_refl|lia].
Qed.

(** A rectangle without room, or with a score that is not smaller, leaves
    the best one in place. *)
Lemma scan_result_keep free r bst bx byy rw rh :
  scan_result heuristic it free bst ->
  best_position bst = Some (bx, byy) ->
  best_score bst = Some (rect_score heuristic it (bx, byy, rw, rh)) ->
  (has_room r it = true ->
   rect_score heuristic it (bx, byy, rw, rh) <= rect_score heuristic it r) ->
  scan_result heuristic it (free ++ [r]) bst.
Proof.
  unfold scan_result. intros H Hpos Hsc Hge. rewrite Hpos in *.
  destruct H as (k & rw' & rh' & Hidx & Hnth & Hfit & Hsc' & Hmin).
  assert (Hk : (k < length free)%nat) by (apply nth_error_Some; congruence).
  assert (Heq : rect_score heuristic it (bx, byy, rw', rh')
                = rect_score heuristic it (bx, byy, rw, rh)) by congruence.
  exists k, rw', rh'.
  split; [exact Hidx|]. split.
  { rewrite nth_error_app1 by exact Hk. exact Hnth. }
  split; [exact Hfit|]. split; [exact Hsc'|].
  intros j r' Hj Hr'.
  apply nth_error_snoc_inv in Hj as [[Hj Hj']|[-> ->]].
  - apply (Hmin j r' Hj' Hr').
  - split; [rewrite Heq; now apply Hge|lia].
Qed.

Lemma scan_result_snoc free r bst :
  scan_result heuristic it free bst ->
  scan_result heuristic it (free ++ [r]) (visit heuristic it (length free) r bst).
Proof.
  intros H. unfold visit.
  destruct (best_position bst) as [[bx byy]|] eqn:Hpos.
  - pose proof H as H'. unfold scan_result in H'. rewrite Hpos in H'.
    destruct H' as (k & rw & rh & Hidx & Hnth & Hfit & Hsc & Hmin).
    destruct (has_room r it) eqn:Hroom.
    + rewrite Hsc.
      destruct (rect_score heuristic it r <? rect_score heuristic it (bx, byy, rw, rh)) eqn:Hlt.
      * apply Z.ltb_lt in Hlt. apply (scan_result_take free r bst); trivial.
        intros j r' Hj Hr'. specialize (Hmin j r' Hj Hr'). lia.
      * apply Z.ltb_ge in Hlt. eapply scan_result_keep; eauto.
    + eapply scan_result_keep; eauto. congruence.
  - pose proof H as H'. unfold scan_result in H'. rewrite Hpos in H'.
    destruct H' as [Hsc Hnone].
    destruct (has_room r it) eqn:Hroom.
    + rewrite Hsc. apply (scan_result_take free r bst); trivial.
      intros j r' Hj Hr'. apply nth_error_In in Hj. apply Hnone in Hj. congruence.
    + unfold scan_result. rewrite Hpos. split; [exact Hsc|].
      intros r' Hin. apply in_app_or in Hin as [Hin|[<-|[]]]; auto.
Qed.

Lemma scan_scan_result free :
  scan_result heuristic it free (scan heuristic it 0 free (mkBest None None (-1))).
Proof.
  induction free as [|r free IH] using rev_ind.
  - cbn. split; [reflexivity|]. intros r [].
  - rewrite scan_app. cbn [Nat.add]. rewrite scan_cons. cbn [scan].
    apply scan_result_snoc. exact IH.
Qed.

End BestPosition.

Lemma rect_score_long_side heuristic it r :
  lower heuristic = "best_long_side_fit" ->
  rect_score heuristic it r = long_side_leftover r it.
Proof.
  intros Hkey. destruct r as [[[rx ry] rw] rh].
  unfold rect_score, long_side_leftover, MaxRects2D.evaluate_position.
  rewrite Hkey. reflexivity.
Qed.

(** C8 (as the code has it).  Under [best_long_side_fit],
    [find_best_position] returns nothing when no free rectangle has room for
    the item; otherwise it returns the corner and the index of the first
    free rectangle whose score max(leftover width, leftover height) is the
    least among the rectangles with room. *)
Theorem find_best_position_long_side_least (heuristic : string) (free : list Rect) (it : Item) :
  lower heuristic = "best_long_side_fit" ->
  match MaxRects2D.find_best_position heuristic free it with
  | None => forall r, In r free -> has_room r it = false
  | Some (bx, byy, idx) =>
      exists k rw rh,
        idx = Z.of_nat k /\
        nth_error free k = Some (bx, byy, rw, rh) /\
        has_room (bx, byy, rw, rh) it = true /\
        forall j r, nth_error free j = Some r -> has_room r it = true ->
                    long_side_leftover (bx, byy, rw, rh) it <= long_side_leftover r it /\
                    ((j < k)%nat ->
                     long_side_leftover (bx, byy, rw, rh) it < long_side_leftover r it)
  end.
Proof.
  intros Hkey. unfold MaxRects2D.find_best_position.
  pose proof (scan_scan_result heuristic it free) as H. unfold scan_result in H.
  destruct (MaxRects2D.best_position _) as [[bx byy]|].
  - destruct H as (k & rw & rh & Hidx & Hnth & Hroom & _ & Hmin).
    exists k, rw, rh. repeat split; trivial.
    + rewrite <- !(rect_score_long_side heuristic) by exact Hkey.
      now apply (Hmin j r).
    + rewrite <- !(rect_score_long_side heuristic) by exact Hkey.
      now apply (Hmin j r).
  - apply H.
Qed.

(** A 4x4 item and the free rectangles 10x10 and 5x5: the 5x5 one, of
    score 1, is taken. *)
Lemma find_best_position_long_side_least_witness :
  match MaxRects2D.find_best_position "best_long_side_fit"
          [(0, 0, 10, 10); (10, 0, 5, 5)] (new_Item "A" 4 4 None) with
  | None => forall r, In r [(0, 0, 10, 10); (10, 0, 5, 5)] ->
                      has_room r (new_Item "A" 4 4 None) = false
  | Some (bx, byy, idx) =>
      exists k rw rh,
        idx = Z.of_nat k /\
        nth_error [(0, 0, 10, 10); (10, 0, 5, 5)] k = Some (bx, byy, rw, rh) /\
        has_room (bx, byy, rw, rh) (new_Item "A" 4 4 None) = true /\
        forall j r, nth_error [(0, 0, 10, 10); (10, 0, 5, 5)] j = Some r ->
                    has_room r (new_Item "A" 4 4 None) = true ->
                    long_side_leftover (bx, byy, rw, rh) (new_Item "A" 4 4 None)
                    <= long_side_leftover r (new_Item "A" 4 4 None) /\
                    ((j < k)%nat ->
                     long_side_leftover (bx, byy, rw, rh) (new_Item "A" 4 4 None)
                     < long_side_leftover r (new_Item "A" 4 4 None))
  end.
Proof.
  exact (find_best_position_long_side_least "best_long_side_fit"
           [(0, 0, 10, 10); (10, 0, 5, 5)] (new_Item "A" 4 4 None) eq_refl).
Defined.

(** C8 as stated fails: the rectangle taken has score 1 while the 10x10
    rectangle, which has room too, has score 6. *)
Lemma find_best_position_long_side_not_greatest :
  let free : list Rect := [(0, 0, 10, 10); (10, 0, 5, 5)] in
  let it := new_Item "A" 4 4 None in
  MaxRects2D.find_best_position "best_long_side_fit" free it = Some (10, 0, 1) /\
  has_room (0, 0, 10, 10) it = true /\
  long_side_leftover (10, 0, 5, 5) it = 1 /\
  long_side_leftover (0, 0, 10, 10) it = 6.
Proof. cbn zeta. repeat split; reflexivity. Qed.

(* ================================================================== *)
(** * Unknown heuristic names *)
(* ================================================================== *)

Section UnknownHeuristic.

Variable heuristic : string.

Lemma split_rectangle_unknown rect it px py :
  ~ In (Guillotine2D.heuristic_key heuristic) guillotine_keys ->
  Guillotine2D.split_rectangle heuristic rect it px py = None.
Proof.
  intros Hnot. unfold Guillotine2D.split_rectangle.
  repeat match goal with
  | |- context [String.eqb ?a ?b] =>
      let E := fresh "E" in
      destruct (String.eqb a b) eqn:E;
      [apply String.eqb_eq in E; exfalso; apply Hnot; rewrite E; cbn; tauto|]
  end.
  reflexivity.
Qed.

Lemma find_position_whole_bin (b : Bin) (it : Item) :
  Guillotine2D.find_position [(0, 0, bin_width b, bin_height b)] it
  = if fits_bin_area b it then Some (0, 0, 0%nat) else None.
Proof.
  unfold Guillotine2D.find_position, fits_bin_area. cbn.
  now destruct ((width it <=? bin_width b) && (height it <=? bin_height b)).
Qed.

(** No item fits the bin: the loop over the items does nothing. *)
Lemma Guillotine_pack_items_no_fit st b its :
  (forall r, In r its -> fits_bin_area b (st r) = false) ->
  Guillotine2D.pack_items heuristic st b [(0, 0, bin_width b, bin_height b)] its
  = (st, b, [(0, 0, bin_width b, bin_height b)], Returned).
Proof.
  induction its as [|r its IH]; intros Hno; [reflexivity|].
  cbn [Guillotine2D.pack_items]. rewrite find_position_whole_bin.
  rewrite (Hno r) by now left.
  apply IH. intros k Hk. apply Hno. now right.
Qed.

(** An item fits the bin: the split of the first one that fits raises. *)
Lemma Guillotine_pack_items_raises st b its :
  ~ In (Guillotine2D.heuristic_key heuristic) guillotine_keys ->
  (exists r, In r its /\ fits_bin_area b (st r) = true) ->
  exists st1 b1 free1 msg,
    Guillotine2D.pack_items heuristic st b [(0, 0, bin_width b, bin_height b)] its
    = (st1, b1, free1, ValueError msg).
Proof.
  intros Hunknown.
  induction its as [|r its IH]; intros (k & Hin & Hfit); [destruct Hin|].
  cbn [Guillotine2D.pack_items]. rewrite find_position_whole_bin.
  destruct (fits_bin_area b (st r)) eqn:Hr.
  - cbn [Guillotine2D.pop]. rewrite split_rectangle_unknown by exact Hunknown.
    eauto.
  - apply IH. destruct Hin as [->|Hin]; [congruence|eauto].
Qed.

Lemma Guillotine_pack_no_fit st its bins :
  (forall b r, In b bins -> In r its -> fits_bin_area b (st r) = false) ->
  Guillotine2D.pack heuristic st its bins = (st, bins, Returned).
Proof.
  induction bins as [|b bins IH]; intros Hno; [reflexivity|].
  cbn [Guillotine2D.pack].
  rewrite Guillotine_pack_items_no_fit by (intros r Hr; apply Hno; [now left|exact Hr]).
  rewrite IH by (intros b' r Hb Hr; apply Hno; [now right|exact Hr]).
  reflexivity.
Qed.

Lemma Guillotine_pack_raises st its bins :
  ~ In (Guillotine2D.heuristic_key heuristic) guillotine_keys ->
  (exists b r, In b bins /\ In r its /\ fits_bin_area b (st r) = true) ->
  exists msg, run_outcome (Guillotine2D.pack heuristic st its bins) = ValueError msg.
Proof.
  intros Hunknown.
  induction bins as [|b bins IH]; intros (b0 & r & Hb & Hr & Hfit); [destruct Hb|].
  cbn [Guillotine2D.pack].
  destruct (existsb (fun k => fits_bin_area b (st k)) its) eqn:Hex.
  - apply existsb_exists in Hex.
    destruct (Guillotine_pack_items_raises st b its Hunknown Hex)
      as (st1 & b1 & free1 & msg & ->).
    exists msg. reflexivity.
  - assert (Hno : forall k, In k its -> fits_bin_area b (st k) = false).
    { intros k Hk. destruct (fits_bin_area b (st k)) eqn:E; [|reflexivity].
      assert (existsb (fun k => fits_bin_area b (st k)) its = true)
        by (apply existsb_exists; eauto).
      congruence. }
    rewrite Guillotine_pack_items_no_fit by exact Hno.
    destruct Hb as [->|Hb]; [rewrite Hno in Hfit by exact Hr; discriminate|].
    destruct IH as [msg Hmsg]; [eauto|].
    exists msg. unfold run_outcome in *.
    destruct (Guillotine2D.pack heuristic st its bins) as [[st2 rest2] out].
    exact Hmsg.
Qed.

Lemma evaluate_position_unknown rx ry rw rh it :
  ~ In (lower heuristic) maxrects_keys ->
  MaxRects2D.evaluate_position heuristic rx ry rw rh it
  = MaxRects2D.evaluate_position "best_short_side_fit" rx ry rw rh it.
Proof.
  intros Hnot. unfold MaxRects2D.evaluate_position.
  repeat match goal with
  | |- context [String.eqb (lower heuristic) ?b] =>
      let E := fresh "E" in
      destruct (String.eqb (lower heuristic) b) eqn:E;
      [apply String.eqb_eq in E; exfalso; apply Hnot; rewrite E; cbn; tauto|]
  end.
  reflexivity.
Qed.

Lemma MaxRects_scan_unknown it free :
  ~ In (lower heuristic) maxrects_keys ->
  forall idx bst,
    MaxRects2D.scan heuristic it idx free bst
    = MaxRects2D.scan "best_short_side_fit" it idx free bst.
Proof.
  intros Hnot. induction free as [|[[[rx ry] rw] rh] free IH]; intros idx bst;
    [reflexivity|].
  cbn [MaxRects2D.scan]. rewrite evaluate_position_unknown by exact Hnot.
  now rewrite !IH.
Qed.

Lemma MaxRects_pack_items_unknown its :
  ~ In (lower heuristic) maxrects_keys ->
  forall st b free,
    MaxRects2D.pack_items heuristic st b free its
    = MaxRects2D.pack_items "best_short_side_fit" st b free its.
Proof.
  intros Hnot. induction its as [|r its IH]; intros st b free; [reflexivity|].
  cbn [MaxRects2D.pack_items]. unfold MaxRects2D.find_best_position.
  rewrite MaxRects_scan_unknown by exact Hnot.
  destruct (MaxRects2D.best_position _) as [[bx byy]|]; apply IH.
Qed.

Lemma MaxRects_pack_bins_unknown its bins :
  ~ In (lower heuristic) maxrects_keys ->
  forall st,
    MaxRects2D.pack_bins heuristic st its bins
    = MaxRects2D.pack_bins "best_short_side_fit" st its bins.
Proof.
  intros Hnot. induction bins as [|b bins IH]; intros st; [reflexivity|].
  cbn [MaxRects2D.pack_bins]. rewrite MaxRects_pack_items_unknown by exact Hnot.
  destruct (MaxRects2D.pack_items _ _ _ _ _) as [[st1 b1] free].
  now rewrite IH.
Qed.

End UnknownHeuristic.

(** C3 (as the code has it).  Guillotine2D checks the heuristic name only
    when it splits a free rectangle: with a name it has no branch for,
    [pack] raises the configuration error if some item fits the area of some
    bin, and returns with items and bins untouched if none does.
    MaxRects2D never raises: a name it has no branch for is scored as
    [best_short_side_fit]. *)
Theorem unknown_heuristic_behaviour :
  (forall heuristic st its bins,
      ~ In (Guillotine2D.heuristic_key heuristic) guillotine_keys ->
      ((exists b r, In b bins /\ In r its /\ fits_bin_area b (st r) = true) ->
       exists msg, run_outcome (Guillotine2D.pack heuristic st its bins) = ValueError msg) /\
      ((forall b r, In b bins -> In r its -> fits_bin_area b (st r) = false) ->
       Guillotine2D.pack heuristic st its bins = (st, bins, Returned))) /\
  (forall heuristic st its bins,
      ~ In (lower heuristic) maxrects_keys ->
      MaxRects2D.pack heuristic st its bins
      = MaxRects2D.pack "best_short_side_fit" st its bins /\
      run_outcome (MaxRects2D.pack heuristic st its bins) = Returned).
Proof.
  split.
  - intros heuristic st its bins Hunknown. split.
    + now apply Guillotine_pack_raises.
    + now apply Guillotine_pack_no_fit.
  - intros heuristic st its bins Hunknown. split; [|reflexivity].
    unfold MaxRects2D.pack. now rewrite MaxRects_pack_bins_unknown.
Qed.

(** The name "foo" with a 10x10 bin: a 4x4 item makes Guillotine2D raise, a
    12x4 item does not; MaxRects2D packs as under [best_short_side_fit]. *)
Lemma unknown_heuristic_behaviour_witness :
  let bins := [new_Bin "bin_0" 10 10 None] in
  let small := store_of [new_Item "A" 4 4 None] in
  let large := store_of [new_Item "A" 12 4 None] in
  (exists msg, run_outcome (Guillotine2D.pack "foo" small [0%nat] bins) = ValueError msg) /\
  Guillotine2D.pack "foo" large [0%nat] bins = (large, bins, Returned) /\
  MaxRects2D.pack "foo" small [0%nat] bins
  = MaxRects2D.pack "best_short_side_fit" small [0%nat] bins.
Proof.
  intros bins small large.
  destruct unknown_heuristic_behaviour as [HG HM].
  assert (HkeyG : ~ In (Guillotine2D.heuristic_key "foo") guillotine_keys).
  { cbn. intros H. repeat (destruct H as [H|H]; [discriminate|]). exact H. }
  assert (HkeyM : ~ In (lower "foo") maxrects_keys).
  { cbn. intros H. repeat (destruct H as [H|H]; [discriminate|]). exact H. }
  split; [|split].
  - apply (HG "foo" small [0%nat] bins HkeyG).
    exists (new_Bin "bin_0" 10 10 None), 0%nat.
    split; [now left|]. split; [now left|reflexivity].
  - apply (HG "foo" large [0%nat] bins HkeyG).
    intros b r [<-|[]] [<-|[]]. reflexivity.
  - apply (HM "foo" small [0%nat] bins HkeyM).
Defined.

(** C3 as stated fails.  With the name "foo", a 4x4 item and a 10x10 bin,
    Guillotine2D raises only after the item was appended to the bin, and
    MaxRects2D packs the item and returns. *)
Lemma unknown_heuristic_not_rejected_up_front :
  let bins := [new_Bin "bin_0" 10 10 None] in
  let st := store_of [new_Item "A" 4 4 None] in
  (run_outcome (Guillotine2D.pack "foo" st [0%nat] bins)
   = ValueError "Heurística desconocida: foo" /\
   map items (run_bins (Guillotine2D.pack "foo" st [0%nat] bins)) = [[0%nat]] /\
   run_bins (Guillotine2D.pack "foo" st [0%nat] bins) <> bins) /\
  (run_outcome (MaxRects2D.pack "foo" st [0%nat] bins) = Returned /\
   map items (run_bins (MaxRects2D.pack "foo" st [0%nat] bins)) = [[0%nat]]).
Proof.
  cbn zeta. repeat split; try reflexivity.
  cbn. intros H. discriminate H.
Qed.

(* ================================================================== *)
(** * Bottom-Left and First-Fit: one bin per item *)
(* ================================================================== *)

Section OneBinPerItem.

(** The item list of one bin gained [r] at its end, or nothing. *)
Lemma add_item_gain b st r :
  items (fst (add_item b st r)) = items b \/
  items (fst (add_item b st r)) = items b ++ [r].
Proof. rewrite add_item_items. destruct (can_fit b (st r)); auto. Qed.

Lemma NoDup_gain (l1 l2 rest pl : list ref) (r : ref) :
  NoDup ((l1 ++ l2) ++ r :: rest) ->
  pl = l1 ++ l2 \/ pl = l1 ++ r :: l2 ->
  NoDup (pl ++ rest).
Proof.
  intros Hnd [->| ->].
  - now apply NoDup_remove_1 in Hnd.
  - apply (Permutation_NoDup (l := (l1 ++ l2) ++ r :: rest)); [|exact Hnd].
    rewrite <- !app_assoc. apply Permutation_app_head. cbn.
    symmetry. apply Permutation_middle.
Qed.

(** The search of Bottom-Left puts [r] into at most one bin and moves no
    other reference. *)
Lemma BottomLeft_try_bins_gain st r : forall bins st1 bins1,
  BottomLeft2D.try_bins st r bins = Some (st1, bins1) ->
  exists l1 l2, placed_refs bins = l1 ++ l2 /\
    (placed_refs bins1 = l1 ++ l2 \/ placed_refs bins1 = l1 ++ r :: l2).
Proof.
  induction bins as [|b bins IH]; intros st1 bins1 Htry; [discriminate|].
  cbn in Htry.
  destruct (BottomLeft2D.find_position st b (st r)) as [[cx cy]|].
  - injection Htry as <- <-. exists (items b), (placed_refs bins).
    split; [reflexivity|]. unfold placed_refs. cbn [flat_map].
    destruct (add_item_gain b (set_position st r cx cy) r) as [-> | ->];
      [now left|right; now rewrite <- app_assoc].
  - destruct (BottomLeft2D.try_bins st r bins) as [[st2 rest2]|]; [|discriminate].
    injection Htry as <- <-.
    destruct (IH st2 rest2 eq_refl) as (l1 & l2 & Hpl & Hgain).
    exists (items b ++ l1), l2. unfold placed_refs in *. cbn [flat_map].
    rewrite Hpl, <- !app_assoc. split; [reflexivity|].
    destruct Hgain as [-> | ->]; [left|right]; now rewrite <- ?app_assoc.
Qed.

(** The search of First-Fit: the same. *)
Lemma FirstFit_try_bins_gain st r : forall bins bins1,
  FirstFit2D.try_bins st r bins = Some bins1 ->
  exists l1 l2, placed_refs bins = l1 ++ l2 /\
    (placed_refs bins1 = l1 ++ l2 \/ placed_refs bins1 = l1 ++ r :: l2).
Proof.
  induction bins as [|b bins IH]; intros bins1 Htry; [discriminate|].
  cbn in Htry.
  destruct (can_fit b (st r)).
  - injection Htry as <-. exists (items b), (placed_refs bins).
    split; [reflexivity|]. unfold placed_refs. cbn [flat_map].
    destruct (add_item_gain b st r) as [-> | ->];
      [now left|right; now rewrite <- app_assoc].
  - destruct (FirstFit2D.try_bins st r bins) as [rest2|]; [|discriminate].
    injection Htry as <-.
    destruct (IH rest2 eq_refl) as (l1 & l2 & Hpl & Hgain).
    exists (items b ++ l1), l2. unfold placed_refs in *. cbn [flat_map].
    rewrite Hpl, <- !app_assoc. split; [reflexivity|].
    destruct Hgain as [-> | ->]; [left|right]; now rewrite <- ?app_assoc.
Qed.

Lemma placed_refs_new_bin bins nb st r :
  items nb = [] ->
  placed_refs (bins ++ [fst (add_item nb st r)]) = placed_refs bins ++ [] \/
  placed_refs (bins ++ [fst (add_item nb st r)]) = placed_refs bins ++ r :: [].
Proof.
  intros Hnb. unfold placed_refs. rewrite flat_map_app. cbn [flat_map].
  rewrite (app_nil_r (items _)).
  destruct (add_item_gain nb st r) as [-> | ->]; rewrite Hnb; [left|right];
    reflexivity.
Qed.

(** Bottom-Left puts every item into at most one bin: after the run no
    reference occurs twice in the item lists of the bins. *)
Lemma BottomLeft2D_pack_one_bin_per_item : forall its st bins,
  NoDup (placed_refs bins ++ its) ->
  NoDup (placed_refs (run_bins (BottomLeft2D.pack st its bins))).
Proof.
  induction its as [|r its IH]; intros st bins Hnd.
  - cbn. now rewrite app_nil_r in Hnd.
  - cbn [BottomLeft2D.pack].
    destruct (BottomLeft2D.try_bins st r bins) as [[st1 bins1]|] eqn:Htry.
    + destruct (BottomLeft_try_bins_gain st r bins st1 bins1 Htry) as (l1 & l2 & Hpl & Hgain).
      apply IH. rewrite Hpl in Hnd. exact (NoDup_gain l1 l2 its _ r Hnd Hgain).
    + destruct bins as [|base_bin bins']; [constructor|].
      apply IH.
      apply (NoDup_gain (placed_refs (base_bin :: bins')) [] its _ r).
      * now rewrite app_nil_r.
      * now apply placed_refs_new_bin.
Qed.

(** First-Fit puts every item into at most one bin. *)
Lemma FirstFit2D_pack_one_bin_per_item : forall its st bins,
  NoDup (placed_refs bins ++ its) ->
  NoDup (placed_refs (run_bins (FirstFit2D.pack st its bins))).
Proof.
  induction its as [|r its IH]; intros st bins Hnd.
  - cbn. now rewrite app_nil_r in Hnd.
  - cbn [FirstFit2D.pack].
    destruct (FirstFit2D.try_bins st r bins) as [bins1|] eqn:Htry.
    + destruct (FirstFit_try_bins_gain st r bins bins1 Htry) as (l1 & l2 & Hpl & Hgain).
      apply IH. rewrite Hpl in Hnd. exact (NoDup_gain l1 l2 its _ r Hnd Hgain).
    + destruct bins as [|base_bin bins']; [constructor|].
      apply IH.
      apply (NoDup_gain (placed_refs (base_bin :: bins')) [] its _ r).
      * now rewrite app_nil_r.
      * now apply placed_refs_new_bin.
Qed.

End OneBinPerItem.

(* ================================================================== *)
(** * Guillotine and Max-Rects with several bins *)
(* ================================================================== *)

(** C1.  Guillotine2D.pack and MaxRects2D.pack offer every item to every
    bin.  With two 4x4 items and the bins 8x4 and 4x8, both items end in the
    item lists of both bins, and the position item B got in the first bin,
    (4,0), is overwritten by the one it gets in the second, (0,4), which
    lies outside the first bin. *)
Theorem pack_places_item_in_every_bin :
  let st := store_of [new_Item "A" 4 4 None; new_Item "B" 4 4 None] in
  let bin_0 := new_Bin "bin_0" 8 4 None in
  let bin_1 := new_Bin "bin_1" 4 8 None in
  (let first := Guillotine2D.pack "default" st [0; 1]%nat [bin_0] in
   let r := Guillotine2D.pack "default" st [0; 1]%nat [bin_0; bin_1] in
   run_outcome r = Returned /\
   map items (run_bins r) = [[0; 1]; [0; 1]]%nat /\
   (x (run_store first 1%nat), y (run_store first 1%nat)) = (4, 0) /\
   (x (run_store r 1%nat), y (run_store r 1%nat)) = (0, 4) /\
   ~ in_bounds bin_0 (run_store r 1%nat)) /\
  (let first := MaxRects2D.pack "best_short_side_fit" st [0; 1]%nat [bin_0] in
   let r := MaxRects2D.pack "best_short_side_fit" st [0; 1]%nat [bin_0; bin_1] in
   run_outcome r = Returned /\
   map items (run_bins r) = [[0; 1]; [0; 1]]%nat /\
   (x (run_store first 1%nat), y (run_store first 1%nat)) = (4, 0) /\
   (x (run_store r 1%nat), y (run_store r 1%nat)) = (0, 4) /\
   ~ in_bounds bin_0 (run_store r 1%nat)).
Proof.
  cbn zeta. split; (split; [reflexivity|]); (split; [reflexivity|]);
    (split; [reflexivity|]); (split; [reflexivity|]);
    intros (_ & _ & _ & H); apply H; reflexivity.
Qed.

(* ================================================================== *)
(** * The scenarios of the specification *)
(* ================================================================== *)

(** C4 (as the code has it).  Bottom-Left on one empty 5x5 bin with the
    items A 2x3, B 3x2, C 1x1 in that order puts A at (0,0), B at (2,0) and
    C at (2,2); no two of them overlap and all three lie within the bin. *)
Theorem BottomLeft2D_scenario_A :
  let st := store_of [new_Item "A" 2 3 None; new_Item "B" 3 2 None;
                      new_Item "C" 1 1 None] in
  let bin_1 := new_Bin "bin_1" 5 5 None in
  let r := BottomLeft2D.pack st [0; 1; 2]%nat [bin_1] in
  let A := run_store r 0%nat in
  let B := run_store r 1%nat in
  let C := run_store r 2%nat in
  run_outcome r = Returned /\
  map items (run_bins r) = [[0; 1; 2]%nat] /\
  (x A, y A) = (0, 0) /\ (x B, y B) = (2, 0) /\ (x C, y C) = (2, 2) /\
  overlaps A B = false /\ overlaps A C = false /\ overlaps B C = false /\
  in_bounds bin_1 A /\ in_bounds bin_1 B /\ in_bounds bin_1 C.
Proof.
  cbn zeta. unfold in_bounds.
  repeat split; first [reflexivity | vm_compute; intros H; discriminate H].
Qed.

(** C4 as stated fails: C is not put at (0,3).  The corner (2,2) above B is
    valid too and has the smaller y. *)
Lemma BottomLeft2D_scenario_A_C_not_at_0_3 :
  let st := store_of [new_Item "A" 2 3 None; new_Item "B" 3 2 None;
                      new_Item "C" 1 1 None] in
  let r := BottomLeft2D.pack st [0; 1; 2]%nat [new_Bin "bin_1" 5 5 None] in
  (x (run_store r 2%nat), y (run_store r 2%nat)) <> (0, 3).
Proof. cbn zeta. cbn. intros H. discriminate H. Qed.

(** C5 (as the code has it).  First-Fit on one empty 5x5 bin with a single
    item of width 6: no bin takes the item, a new 5x5 bin [bin_2] is cloned
    from the first one and appended, and [add_item] on the new bin rejects
    the item, so both item lists stay empty and the item is not moved. *)
Theorem FirstFit2D_scenario_B (h : Z) :
  let st := store_of [new_Item "A" 6 h None] in
  FirstFit2D.pack st [0%nat] [new_Bin "bin_1" 5 5 None]
  = (st, [new_Bin "bin_1" 5 5 None; new_Bin "bin_2" 5 5 None], Returned).
Proof. reflexivity. Qed.

(** C5 as stated fails: for the item 6x5 the new bin's item list does not
    hold the item. *)
Lemma FirstFit2D_scenario_B_item_not_placed :
  let st := store_of [new_Item "A" 6 5 None] in
  let r := FirstFit2D.pack st [0%nat] [new_Bin "bin_1" 5 5 None] in
  map items (run_bins r) = [[]; []] /\
  forall b, In b (run_bins r) -> ~ In 0%nat (items b).
Proof.
  cbn zeta. split; [reflexivity|].
  cbn. intros b [<-|[<-|[]]]; cbn; tauto.
Qed.

(* ================================================================== *)
(** * Bottom-Left: no overlap, within bounds *)
(* ================================================================== *)

Section BottomLeftInvariant.

Import BottomLeft2D.

Lemma rectangles_overlap_false x1 y1 w1 h1 x2 y2 w2 h2 :
  rectangles_overlap x1 y1 w1 h1 x2 y2 w2 h2 = false <->
  x1 + w1 <= x2 \/ x2 + w2 <= x1 \/ y1 + h1 <= y2 \/ y2 + h2 <= y1.
Proof.
  unfold rectangles_overlap.
  destruct (x1 + w1 <=? x2) eqn:E1; [apply Z.leb_le in E1|apply Z.leb_gt in E1];
  destruct (x2 + w2 <=? x1) eqn:E2; [apply Z.leb_le in E2|apply Z.leb_gt in E2| |];
  try (apply Z.leb_le in E2); try (apply Z.leb_gt in E2);
  destruct (y1 + h1 <=? y2) eqn:E3; try (apply Z.leb_le in E3); try (apply Z.leb_gt in E3);
  destruct (y2 + h2 <=? y1) eqn:E4; try (apply Z.leb_le in E4); try (apply Z.leb_gt in E4);
  cbn; split; intros H; try reflexivity; try discriminate; lia.
Qed.

Lemma overlaps_sym i1 i2 : overlaps i1 i2 = false -> overlaps i2 i1 = false.
Proof. unfold overlaps. rewrite !rectangles_overlap_false. lia. Qed.

Lemma overlap_loop_false st placed it cx cy :
  overlap_loop st placed it cx cy = false ->
  forall p, In p placed ->
    rectangles_overlap cx cy (width it) (height it)
                       (x (st p)) (y (st p)) (width (st p)) (height (st p)) = false.
Proof.
  induction placed as [|q placed IH]; cbn; intros H p Hin; [destruct Hin|].
  destruct (rectangles_overlap _ _ _ _ _ _ _ _) eqn:E; [discriminate|].
  destruct Hin as [<-|Hin]; [exact E|now apply IH].
Qed.

Lemma insert_by_key_In p l c : In c (insert_by_key p l) -> c = p \/ In c l.
Proof.
  induction l as [|q l IH]; cbn.
  - intros [<-|[]]. now left.
  - destruct (key_lt q p); cbn.
    + intros [<-|H]; [right; now left|]. destruct (IH H); [now left|right; now right].
    + intros [<-|H]; [now left|now right].
Qed.

Lemma sort_by_key_In l c : In c (sort_by_key l) -> In c l.
Proof.
  induction l as [|p l IH]; cbn; [tauto|].
  intros H. apply insert_by_key_In in H as [->|H]; [now left|right; now apply IH].
Qed.

(** The position [find_position] returns is a candidate corner that passed
    the filter. *)
Lemma find_position_valid st b it cx cy :
  find_position st b it = Some (cx, cy) ->
  In (cx, cy) (candidate_positions st b) /\ valid_candidate st b it (cx, cy) = true.
Proof.
  unfold find_position.
  destruct (sort_by_key _) as [|c l] eqn:E; [discriminate|].
  intros H. injection H as ->.
  assert (Hin : In (cx, cy) (sort_by_key
            (filter (valid_candidate st b it) (candidate_positions st b)))).
  { rewrite E. now left. }
  apply sort_by_key_In, filter_In in Hin. exact Hin.
Qed.

Lemma candidates_of_nonneg st placed cx cy :
  (forall p, In p placed -> 0 <= x (st p) /\ 0 <= y (st p) /\ positive_size (st p)) ->
  In (cx, cy) (candidates_of st placed) -> 0 <= cx /\ 0 <= cy.
Proof.
  unfold positive_size.
  induction placed as [|p placed IH]; cbn; intros Hpl Hin; [destruct Hin|].
  destruct Hin as [H|[H|Hin]].
  - injection H as <- <-. specialize (Hpl p (or_introl eq_refl)). lia.
  - injection H as <- <-. specialize (Hpl p (or_introl eq_refl)). lia.
  - apply IH; auto.
Qed.

(** Moving an item that is not in the bin leaves the bin's state as it is. *)
Lemma bin_ok_frame st b r nx ny :
  bin_ok st b -> ~ In r (items b) -> bin_ok (set_position st r nx ny) b.
Proof.
  intros (Hnd & Hin & Hov) Hnot. split; [exact Hnd|]. split.
  - intros p Hp. rewrite set_position_other by (intros ->; contradiction). auto.
  - intros p q Hp Hq Hpq.
    rewrite !set_position_other by (intros ->; contradiction). auto.
Qed.

(** The item is put at the position [find_position] found in the bin. *)
Lemma bin_ok_place st b r cx cy :
  bin_ok st b -> ~ In r (items b) ->
  (forall p, In p (items b) -> positive_size (st p)) ->
  find_position st b (st r) = Some (cx, cy) ->
  bin_ok (set_position st r cx cy) (fst (add_item b (set_position st r cx cy) r)).
Proof.
  intros Hok Hnot Hpos Hfind.
  pose proof (bin_ok_frame st b r cx cy Hok Hnot) as (Hnd & Hin & Hov).
  destruct (add_item_dims b (set_position st r cx cy) r) as (Hw & Hh & _).
  assert (Hsame : forall it, in_bounds (fst (add_item b (set_position st r cx cy) r)) it
                             <-> in_bounds b it).
  { intros it. unfold in_bounds. rewrite Hw, Hh. tauto. }
  unfold bin_ok. rewrite add_item_items.
  destruct (can_fit b (set_position st r cx cy r));
    [|split; [exact Hnd|split; [intros p Hp; apply Hsame; auto|exact Hov]]].
  apply find_position_valid in Hfind as [Hcand Hvalid].
  destruct (set_position_xy st r cx cy) as [Hx Hy].
  destruct (set_position_dims st r cx cy r) as (Hwr & Hhr & _).
  unfold valid_candidate in Hvalid.
  destruct ((cx + width (st r) <=? bin_width b) && (cy + height (st r) <=? bin_height b))
    eqn:Hb; [|discriminate].
  apply andb_true_iff in Hb as [Hbx Hby]. apply Z.leb_le in Hbx, Hby.
  apply negb_true_iff in Hvalid.
  assert (Hfree : forall p, In p (items b) ->
            overlaps (set_position st r cx cy r) (set_position st r cx cy p) = false).
  { intros p Hp. unfold overlaps. rewrite Hx, Hy, Hwr, Hhr.
    rewrite set_position_other by (intros ->; contradiction).
    now apply (overlap_loop_false st (items b) (st r) cx cy). }
  assert (Hnn : 0 <= cx /\ 0 <= cy).
  { destruct Hcand as [H|Hcand]; [injection H as <- <-; lia|].
    apply (candidates_of_nonneg st (items b)); [|exact Hcand].
    intros p Hp. destruct Hok as (_ & Hin0 & _).
    destruct (Hin0 p Hp) as (H1 & H2 & _). auto. }
  split; [|split].
  - apply NoDup_app; [exact Hnd|repeat constructor; intros []|].
    intros a Ha [<-|[]]. contradiction.
  - intros p Hp. apply Hsame.
    apply in_app_or in Hp as [Hp|[<-|[]]]; [now apply Hin|].
    unfold in_bounds. rewrite Hx, Hy, Hwr, Hhr. lia.
  - intros p q Hp Hq Hpq.
    apply in_app_or in Hp as [Hp|[<-|[]]]; apply in_app_or in Hq as [Hq|[<-|[]]].
    + now apply Hov.
    + apply overlaps_sym. now apply Hfree.
    + now apply Hfree.
    + contradiction.
Qed.

(** The item is put at the origin of a new bin. *)
Lemma bin_ok_new_bin st bins base_bin r :
  bin_ok (set_position st r 0 0)
         (fst (add_item (clone_bin bins base_bin) (set_position st r 0 0) r)).
Proof.
  set (st1 := set_position st r 0 0). set (nb := clone_bin bins base_bin).
  destruct (add_item_dims nb st1 r) as (Hw & Hh & _).
  unfold bin_ok. rewrite add_item_items.
  destruct (can_fit nb (st1 r)) eqn:Hfit; cbn [items nb clone_bin new_Bin app].
  - apply can_fit_spec in Hfit as (Hfw & Hfh & _).
    destruct (set_position_xy st r 0 0) as [Hx Hy]. fold st1 in Hx, Hy.
    split; [repeat constructor; intros []|]. split.
    + intros p [<-|[]]. unfold in_bounds. rewrite Hx, Hy, Hw, Hh. lia.
    + intros p q [<-|[]] [<-|[]] Hpq. contradiction.
  - split; [constructor|]. split; [intros p []|intros p q []].
Qed.

(** The search through the bins: the bins stay in order, only the item
    looked at is moved, and it is the only item a bin can gain. *)
Lemma try_bins_ok st r : forall bins st1 bins1,
  Forall (bin_ok st) bins ->
  ~ placed_in bins r ->
  (forall p, placed_in bins p -> positive_size (st p)) ->
  try_bins st r bins = Some (st1, bins1) ->
  Forall (bin_ok st1) bins1 /\
  length bins1 = length bins /\
  (exists cx cy, st1 = set_position st r cx cy) /\
  (forall p, placed_in bins1 p -> p = r \/ placed_in bins p).
Proof.
  induction bins as [|b bins IH]; intros st1 bins1 Hok Hnot Hpos Htry; [discriminate|].
  cbn in Htry.
  apply Forall_cons_iff in Hok as [Hb Hbins].
  assert (Hrb : ~ In r (items b)).
  { intros H. apply Hnot. exists b. split; [now left|exact H]. }
  assert (Hrbins : forall b', In b' bins -> ~ In r (items b')).
  { intros b' Hb' H. apply Hnot. exists b'. split; [now right|exact H]. }
  destruct (find_position st b (st r)) as [[cx cy]|] eqn:Hfind.
  - injection Htry as <- <-. split; [|split; [reflexivity|split; [eauto|]]].
    + constructor.
      * apply bin_ok_place; trivial.
        intros p Hp. apply Hpos. exists b. split; [now left|exact Hp].
      * rewrite Forall_forall in *. intros b' Hb'. apply bin_ok_frame; auto.
    + intros p (b' & [<-|Hb'] & Hp).
      * rewrite add_item_items in Hp.
        destruct (can_fit b _).
        -- apply in_app_or in Hp as [Hp|[<-|[]]]; [right|now left].
           exists b. split; [now left|exact Hp].
        -- right. exists b. split; [now left|exact Hp].
      * right. exists b'. split; [now right|exact Hp].
  - destruct (try_bins st r bins) as [[st2 rest2]|] eqn:Hrest; [|discriminate].
    injection Htry as <- <-.
    destruct (IH st2 rest2 Hbins) as (Hok2 & Hlen & (cx & cy & ->) & Hsub); trivial.
    + intros (b' & Hb' & Hp). exact (Hrbins b' Hb' Hp).
    + intros p (b' & Hb' & Hp). apply Hpos. exists b'. split; [now right|exact Hp].
    + split; [|split; [cbn; now rewrite Hlen|split; [eauto|]]].
      * constructor; [now apply bin_ok_frame|exact Hok2].
      * intros p (b' & [<-|Hb'] & Hp).
        -- right. exists b. split; [now left|exact Hp].
        -- destruct (Hsub p) as [->|(b2 & Hb2 & Hp2)]; [exists b'; auto|now left|].
           right. exists b2. split; [now right|exact Hp2].
Qed.

Lemma positive_size_set_position st r nx ny p :
  positive_size (set_position st r nx ny p) <-> positive_size (st p).
Proof.
  unfold positive_size.
  destruct (set_position_dims st r nx ny p) as (-> & -> & _). tauto.
Qed.

(** With a bin to clone, [pack] returns, and it keeps every bin in the
    state [bin_ok]. *)
Lemma pack_ok : forall its st bins,
  bins <> [] ->
  Forall (bin_ok st) bins ->
  NoDup its ->
  (forall r, In r its -> ~ placed_in bins r) ->
  (forall p, In p its \/ placed_in bins p -> positive_size (st p)) ->
  exists st' bins',
    pack st its bins = (st', bins', Returned) /\ Forall (bin_ok st') bins'.
Proof.
  induction its as [|r its IH]; intros st bins Hne Hok Hnd Hfresh Hpos.
  - exists st, bins. split; [reflexivity|exact Hok].
  - cbn [pack]. apply NoDup_cons_iff in Hnd as [Hr Hnd].
    destruct (try_bins st r bins) as [[st1 bins1]|] eqn:Htry.
    + destruct (try_bins_ok st r bins st1 bins1 Hok) as (Hok1 & Hlen & (cx & cy & ->) & Hsub);
        trivial.
      * apply Hfresh. now left.
      * intros p Hp. apply Hpos. now right.
      * apply IH; trivial.
        -- intros ->. destruct bins; [now elim Hne|discriminate].
        -- intros q Hq Hpl. destruct (Hsub q Hpl) as [->|Hpl']; [contradiction|].
           apply (Hfresh q); [now right|exact Hpl'].
        -- intros p Hp. apply positive_size_set_position. apply Hpos.
           destruct Hp as [Hp|Hp]; [left; now right|].
           destruct (Hsub p Hp) as [->|Hpl']; [left; now left|now right].
    + destruct bins as [|base_bin bins']; [now elim Hne|].
      set (bins := base_bin :: bins') in *.
      apply IH; trivial.
      * intros H. apply app_eq_nil in H as [_ H]. discriminate.
      * apply Forall_app. split.
        -- rewrite Forall_forall in *. intros b Hb. apply bin_ok_frame; auto.
           intros H. apply (Hfresh r); [now left|]. exists b. auto.
        -- constructor; [apply bin_ok_new_bin|constructor].
      * intros q Hq (b & Hb & Hp). apply in_app_or in Hb as [Hb|[<-|[]]].
        -- apply (Hfresh q); [now right|]. exists b. auto.
        -- rewrite add_item_items in Hp.
           destruct (can_fit _ _); cbn in Hp; [|exact Hp].
           destruct Hp as [<-|[]]. contradiction.
      * intros p Hp. apply positive_size_set_position. apply Hpos.
        destruct Hp as [Hp|(b & Hb & Hp)]; [left; now right|].
        apply in_app_or in Hb as [Hb|[<-|[]]].
        -- right. exists b. auto.
        -- rewrite add_item_items in Hp.
           destruct (can_fit _ _); cbn in Hp; [|destruct Hp].
           destruct Hp as [<-|[]]. left. now left.
Qed.

End BottomLeftInvariant.

(** From bins without items, each item passed once: the run returns and
    leaves every bin in order. *)
Lemma BottomLeft_pack_fresh_bins (st : store) (its : list ref) (bins : list Bin) :
  (forall r, In r its -> 0 < width (st r) /\ 0 < height (st r)) ->
  bins <> [] ->
  NoDup its ->
  (forall b, In b bins -> items b = []) ->
  exists st' bins',
    BottomLeft2D.pack st its bins = (st', bins', Returned) /\
    forall b, In b bins' ->
      (forall i j p q, i <> j ->
         nth_error (items b) i = Some p -> nth_error (items b) j = Some q ->
         overlaps (st' p) (st' q) = false) /\
      (forall p, In p (items b) ->
         0 <= x (st' p) /\ 0 <= y (st' p) /\
         x (st' p) + width (st' p) <= bin_width b /\
         y (st' p) + height (st' p) <= bin_height b).
Proof.
  intros Hpos Hne Hnd Hempty.
  assert (Hnone : forall p, ~ placed_in bins p).
  { intros p (b & Hb & Hp). rewrite (Hempty b Hb) in Hp. exact Hp. }
  assert (Hstart : Forall (bin_ok st) bins).
  { apply Forall_forall. intros b Hb. unfold bin_ok. rewrite (Hempty b Hb).
    split; [constructor|]. split; [intros p []|intros p q []]. }
  assert (Hfresh : forall r, In r its -> ~ placed_in bins r).
  { intros r _. apply Hnone. }
  assert (Hsize : forall p, In p its \/ placed_in bins p -> positive_size (st p)).
  { intros p [Hp|Hp]; [now apply Hpos|now elim (Hnone p)]. }
  destruct (pack_ok its st bins Hne Hstart Hnd Hfresh Hsize) as (st' & bins' & Hrun & Hok).
  exists st', bins'. split; [exact Hrun|].
  intros b Hb. rewrite Forall_forall in Hok.
  destruct (Hok b Hb) as (Hnodup & Hin & Hov). split.
  - intros i j p q Hij Hi Hj. apply Hov.
    + eapply nth_error_In; eauto.
    + eapply nth_error_In; eauto.
    + intros ->. apply Hij.
      apply (proj1 (NoDup_nth_error (items b)) Hnodup); [|congruence].
      apply nth_error_Some. congruence.
  - intros p Hp. exact (Hin p Hp).
Qed.

Lemma overlaps_false_separated i1 i2 : overlaps i1 i2 = false <-> separated i1 i2.
Proof. unfold overlaps, separated. apply rectangles_overlap_false. Qed.

(** C2 (as the code has it).  BottomLeft2D.pack on an item list in which
    every item object occurs once, the items of strictly positive width and
    height, and on a non-empty list of bins that hold no items, all widths
    and heights being integers of at most 2^52 (so that every sum of the run
    is exact in binary64): the run returns, and afterwards in every bin the
    items at two different places of the item list are separated (one lies
    entirely to the left of, to the right of, below or above the other; a
    shared edge is no overlap), and every item of a list has x >= 0,
    y >= 0, x + width <= bin.width and y + height <= bin.height. *)
Theorem BottomLeft2D_pack_separated_in_bounds
        (st : store) (its : list ref) (bins : list Bin) :
  (forall r, In r its -> 0 < width (st r) /\ 0 < height (st r)) ->
  bins <> [] ->
  NoDup its ->
  (forall b, In b bins -> items b = []) ->
  (forall r, In r its -> width (st r) <= exact_sum_bound /\
                         height (st r) <= exact_sum_bound) ->
  (forall b, In b bins -> bin_width b <= exact_sum_bound /\
                          bin_height b <= exact_sum_bound) ->
  exists st' bins',
    BottomLeft2D.pack st its bins = (st', bins', Returned) /\
    forall b, In b bins' ->
      (forall i j p q, i <> j ->
         nth_error (items b) i = Some p -> nth_error (items b) j = Some q ->
         x (st' p) + width (st' p) <= x (st' q) \/
         x (st' q) + width (st' q) <= x (st' p) \/
         y (st' p) + height (st' p) <= y (st' q) \/
         y (st' q) + height (st' q) <= y (st' p)) /\
      (forall p, In p (items b) ->
         0 <= x (st' p) /\ 0 <= y (st' p) /\
         x (st' p) + width (st' p) <= bin_width b /\
         y (st' p) + height (st' p) <= bin_height b).
Proof.
  intros Hpos Hne Hnd Hempty _ _.
  destruct (BottomLeft_pack_fresh_bins st its bins Hpos Hne Hnd Hempty)
    as (st' & bins' & Hrun & Hok).
  exists st', bins'. split; [exact Hrun|].
  intros b Hb. destruct (Hok b Hb) as [Hov Hin]. split; [|exact Hin].
  intros i j p q Hij Hi Hj.
  apply (overlaps_false_separated (st' p) (st' q)). now apply (Hov i j).
Qed.

(** The run of scenario A meets the hypotheses. *)
Lemma BottomLeft2D_pack_separated_in_bounds_witness :
  let st := store_of [new_Item "A" 2 3 None; new_Item "B" 3 2 None;
                      new_Item "C" 1 1 None] in
  let its := [0; 1; 2]%nat in
  let bins := [new_Bin "bin_1" 5 5 None] in
  exists st' bins',
    BottomLeft2D.pack st its bins = (st', bins', Returned) /\
    forall b, In b bins' ->
      (forall i j p q, i <> j ->
         nth_error (items b) i = Some p -> nth_error (items b) j = Some q ->
         x (st' p) + width (st' p) <= x (st' q) \/
         x (st' q) + width (st' q) <= x (st' p) \/
         y (st' p) + height (st' p) <= y (st' q) \/
         y (st' q) + height (st' q) <= y (st' p)) /\
      (forall p, In p (items b) ->
         0 <= x (st' p) /\ 0 <= y (st' p) /\
         x (st' p) + width (st' p) <= bin_width b /\
         y (st' p) + height (st' p) <= bin_height b).
Proof.
  intros st its bins.
  apply (BottomLeft2D_pack_separated_in_bounds st its bins).
  - intros r [<-|[<-|[<-|[]]]]; cbn; lia.
  - discriminate.
  - repeat constructor; cbn; intuition discriminate.
  - intros b [<-|[]]. reflexivity.
  - intros r [<-|[<-|[<-|[]]]]; unfold exact_sum_bound; cbn; lia.
  - intros b [<-|[]]. unfold exact_sum_bound; cbn; lia.
Defined.

(** C2 as stated fails: it does not ask that every item is passed once.
    With a 2x5 item, a 3x5 item and two 5x5 bins, passing the second item
    twice puts it into the first bin at (2,0) and then, the first bin
    being full, into the second bin at (0,0): the one object is now in both
    item lists, and in the first bin it lies over the 2x5 item, neither
    left of, right of, below nor above it. *)
Lemma BottomLeft2D_pack_same_item_twice :
  let st := store_of [new_Item "C" 2 5 None; new_Item "A" 3 5 None] in
  let r := BottomLeft2D.pack st [0; 1; 1]%nat
             [new_Bin "bin_1" 5 5 None; new_Bin "bin_2" 5 5 None] in
  run_outcome r = Returned /\
  map items (run_bins r) = [[0; 1]; [1]]%nat /\
  (x (run_store r 0%nat), y (run_store r 0%nat)) = (0, 0) /\
  (x (run_store r 1%nat), y (run_store r 1%nat)) = (0, 0) /\
  ~ separated (run_store r 0%nat) (run_store r 1%nat).
Proof.
  cbn zeta. split; [reflexivity|]. split; [reflexivity|].
  split; [reflexivity|]. split; [reflexivity|].
  unfold separated. cbn. lia.
Qed.

(* ================================================================== *)
(** * Rectangles: intersection, containment, points *)
(* ================================================================== *)

Section RectFacts.

Import MaxRects2D.

Lemma rectangles_intersect_false fx fy fw fh px py pw ph :
  rectangles_intersect (fx, fy, fw, fh) (px, py, pw, ph) = false <->
  px + pw <= fx \/ fx + fw <= px \/ py + ph <= fy \/ fy + fh <= py.
Proof.
  unfold rectangles_intersect. rewrite negb_false_iff, !orb_true_iff, !Z.leb_le. tauto.
Qed.

Lemma rectangles_intersect_true fx fy fw fh px py pw ph :
  rectangles_intersect (fx, fy, fw, fh) (px, py, pw, ph) = true <->
  fx < px + pw /\ px < fx + fw /\ fy < py + ph /\ py < fy + fh.
Proof.
  destruct (rectangles_intersect _ _) eqn:E.
  - split; [intros _|reflexivity].
    assert (H : ~ (px + pw <= fx \/ fx + fw <= px \/ py + ph <= fy \/ fy + fh <= py)).
    { rewrite <- rectangles_intersect_false. congruence. }
    lia.
  - apply rectangles_intersect_false in E. split; [discriminate|lia].
Qed.

Lemma rectangles_intersect_sym a b :
  rectangles_intersect a b = false -> rectangles_intersect b a = false.
Proof.
  destruct a as [[[ax ay] aw] ah], b as [[[bx byy] bw] bh].
  rewrite !rectangles_intersect_false. lia.
Qed.

Lemma contained_in_true fx fy fw fh ox oy ow oh :
  contained_in (fx, fy, fw, fh) (ox, oy, ow, oh) = true <->
  ox <= fx /\ oy <= fy /\ fx + fw <= ox + ow /\ fy + fh <= oy + oh.
Proof. unfold contained_in. rewrite !andb_true_iff, !Z.leb_le. tauto. Qed.

(** A rectangle inside one that keeps clear of [c] keeps clear of [c]. *)
Lemma contained_in_apart a b c :
  contained_in a b = true -> rectangles_intersect b c = false ->
  rectangles_intersect a c = false.
Proof.
  destruct a as [[[ax ay] aw] ah], b as [[[bx byy] bw] bh], c as [[[cx cy] cw] ch].
  rewrite contained_in_true, !rectangles_intersect_false. lia.
Qed.

Lemma contained_in_inside r o p :
  contained_in r o = true -> inside r p -> inside o p.
Proof.
  destruct r as [[[fx fy] fw] fh], o as [[[ox oy] ow] oh], p as [a b].
  rewrite contained_in_true. unfold inside. cbn. lia.
Qed.

(** Rectangles that do not intersect share no point. *)
Lemma apart_inside a b p :
  rectangles_intersect a b = false -> inside a p -> ~ inside b p.
Proof.
  destruct a as [[[ax ay] aw] ah], b as [[[bx byy] bw] bh], p as [u v].
  rewrite rectangles_intersect_false. unfold inside. cbn. lia.
Qed.

(** The overlap test on items is the intersection test on their
    rectangles. *)
Lemma overlaps_item_rect i1 i2 :
  overlaps i1 i2 = rectangles_intersect (item_rect i1) (item_rect i2).
Proof.
  unfold overlaps, item_rect.
  destruct (rectangles_intersect _ _) eqn:E.
  - apply rectangles_intersect_true in E.
    destruct (BottomLeft2D.rectangles_overlap _ _ _ _ _ _ _ _) eqn:F; [reflexivity|].
    apply rectangles_overlap_false in F. lia.
  - apply rectangles_intersect_false in E. apply rectangles_overlap_false. lia.
Qed.

(** The rectangles [split_free_rectangle] returns. *)
Lemma split_free_rectangle_In fx fy fw fh px py pw ph (r : Rect) :
  In r (split_free_rectangle (fx, fy, fw, fh) (px, py, pw, ph)) <->
  (r = (fx, py + ph, fw, (fy + fh) - (py + ph)) /\ py + ph < fy + fh /\ 0 < fw) \/
  (r = (fx, fy, fw, py - fy) /\ fy < py /\ 0 < fw) \/
  (r = (fx, fy, px - fx, fh) /\ fx < px /\ 0 < fh) \/
  (r = (px + pw, fy, (fx + fw) - (px + pw), fh) /\ px + pw < fx + fw /\ 0 < fh).
Proof.
  unfold split_free_rectangle. rewrite filter_In, !in_app_iff.
  destruct (py + ph <? fy + fh) eqn:E1; [apply Z.ltb_lt in E1|apply Z.ltb_ge in E1];
  destruct (fy <? py) eqn:E2; [apply Z.ltb_lt in E2|apply Z.ltb_ge in E2| |];
  try (apply Z.ltb_lt in E2); try (apply Z.ltb_ge in E2);
  destruct (fx <? px) eqn:E3; try (apply Z.ltb_lt in E3); try (apply Z.ltb_ge in E3);
  destruct (px + pw <? fx + fw) eqn:E4; try (apply Z.ltb_lt in E4);
    try (apply Z.ltb_ge in E4);
  cbn [In]; (split;
   [ intros [Hin Hpos];
     repeat (destruct Hin as [Hin|Hin]); try contradiction; subst r;
     apply andb_true_iff in Hpos as [Hw Hh]; apply Z.ltb_lt in Hw, Hh; intuition lia
   | intros [(-> & Hc & Hp)|[(-> & Hc & Hp)|[(-> & Hc & Hp)|(-> & Hc & Hp)]]];
     try lia; (split; [tauto|apply andb_true_iff; rewrite !Z.ltb_lt; lia]) ]).
Qed.

End RectFacts.

Lemma split_pieces_cover (fr pr : Rect) (p : Z * Z) :
  MaxRects2D.rectangles_intersect fr pr = true ->
  (inside_some (MaxRects2D.split_free_rectangle fr pr) p <->
   inside fr p /\ ~ inside pr p).
Proof.
  destruct fr as [[[fx fy] fw] fh], pr as [[[px py] pw] ph], p as [u v].
  intros Hint. apply rectangles_intersect_true in Hint.
  unfold inside_some. split.
  - intros (r & Hin & Hr). apply split_free_rectangle_In in Hin.
    destruct Hin as [(-> & Hc & Hp)|[(-> & Hc & Hp)|[(-> & Hc & Hp)|(-> & Hc & Hp)]]];
      unfold inside in *; cbn in *; lia.
  - intros [Hfr Hnot]. unfold inside in Hfr, Hnot. cbn in Hfr, Hnot.
    destruct (Z_lt_le_dec v (py + ph)) as [Hv1|Hv1].
    + destruct (Z_lt_le_dec v py) as [Hv2|Hv2].
      * exists (fx, fy, fw, py - fy). split.
        -- apply split_free_rectangle_In. right; left. repeat split; lia.
        -- unfold inside; cbn; lia.
      * destruct (Z_lt_le_dec u px) as [Hu1|Hu1].
        -- exists (fx, fy, px - fx, fh). split.
           ++ apply split_free_rectangle_In. right; right; left. repeat split; lia.
           ++ unfold inside; cbn; lia.
        -- exists (px + pw, fy, (fx + fw) - (px + pw), fh). split.
           ++ apply split_free_rectangle_In. right; right; right. repeat split; lia.
           ++ unfold inside; cbn; lia.
    + exists (fx, py + ph, fw, (fy + fh) - (py + ph)). split.
      * apply split_free_rectangle_In. left. repeat split; lia.
      * unfold inside; cbn; lia.
Qed.



(* ================================================================== *)
(** * Max-Rects: the update of the free rectangles *)
(* ================================================================== *)

Section UpdateFacts.

Import MaxRects2D.

(** Where the rectangles of the loop of [update_free_rectangles] come
    from. *)
Lemma updated_rectangles_In free pr r :
  In r (updated_rectangles free pr) <->
  exists fr, In fr free /\
    ((rectangles_intersect fr pr = false /\ r = fr) \/
     (rectangles_intersect fr pr = true /\ In r (split_free_rectangle fr pr))).
Proof.
  induction free as [|fr free IH]; cbn.
  - split; [tauto|intros (fr & [] & _)].
  - destruct (rectangles_intersect fr pr) eqn:E.
    + rewrite in_app_iff, IH. split.
      * intros [H|(fr' & Hin & H)]; [exists fr; split; [now left|right; auto]|].
        exists fr'. split; [now right|exact H].
      * intros (fr' & [<-|Hin] & H).
        -- left. destruct H as [[H _]|[_ H]]; [congruence|exact H].
        -- right. exists fr'. auto.
    + cbn. rewrite IH. split.
      * intros [<-|(fr' & Hin & H)]; [exists fr; split; [now left|left; auto]|].
        exists fr'. split; [now right|exact H].
      * intros (fr' & [<-|Hin] & H).
        -- left. destruct H as [[_ H]|[H _]]; [now symmetry|congruence].
        -- right. exists fr'. auto.
Qed.

(** A piece lies in the rectangle it was cut from and keeps clear of the
    placed rectangle. *)
Lemma split_free_rectangle_piece fr pr r :
  rectangles_intersect fr pr = true ->
  In r (split_free_rectangle fr pr) ->
  contained_in r fr = true /\ rectangles_intersect r pr = false.
Proof.
  destruct fr as [[[fx fy] fw] fh], pr as [[[px py] pw] ph].
  intros Hint Hin. apply rectangles_intersect_true in Hint.
  apply split_free_rectangle_In in Hin.
  destruct Hin as [(-> & Hc & Hp)|[(-> & Hc & Hp)|[(-> & Hc & Hp)|(-> & Hc & Hp)]]];
    rewrite contained_in_true, rectangles_intersect_false; lia.
Qed.

Lemma prune_free_rectangles_incl S r :
  In r (prune_free_rectangles S) -> In r S.
Proof. rewrite prune_free_rectangles_split. apply prune_split_incl. Qed.

End UpdateFacts.

Lemma updated_cover (free : list Rect) (pr : Rect) (p : Z * Z) :
  inside_some (MaxRects2D.updated_rectangles free pr) p <->
  inside_some free p /\ ~ inside pr p.
Proof.
  unfold inside_some. split.
  - intros (r & Hin & Hr). apply updated_rectangles_In in Hin.
    destruct Hin as (fr & Hfr & [[Hno ->]|[Hyes Hin]]).
    + split; [eauto|]. now apply (apart_inside fr pr).
    + assert (H : inside_some (MaxRects2D.split_free_rectangle fr pr) p) by (exists r; auto).
      apply (split_pieces_cover fr pr p Hyes) in H as [H1 H2].
      split; [eauto|exact H2].
  - intros [(fr & Hfr & Hin) Hnot].
    destruct (MaxRects2D.rectangles_intersect fr pr) eqn:E.
    + destruct (proj2 (split_pieces_cover fr pr p E) (conj Hin Hnot))
        as (r & Hr & Hp).
      exists r. split; [|exact Hp]. apply updated_rectangles_In.
      exists fr. split; [exact Hfr|right; auto].
    + exists fr. split; [|exact Hin]. apply updated_rectangles_In.
      exists fr. split; [exact Hfr|left; auto].
Qed.


Lemma updated_clear (free : list Rect) (pr r : Rect) :
  In r (MaxRects2D.update_free_rectangles free pr) ->
  MaxRects2D.rectangles_intersect r pr = false /\
  exists fr, In fr free /\ MaxRects2D.contained_in r fr = true.
Proof.
  unfold MaxRects2D.update_free_rectangles. intros Hin.
  apply prune_free_rectangles_incl, updated_rectangles_In in Hin.
  destruct Hin as (fr & Hfr & [[Hno ->]|[Hyes Hin]]).
  - split; [exact Hno|]. exists fr. split; [exact Hfr|apply contained_in_refl].
  - destruct (split_free_rectangle_piece fr pr r Hyes Hin) as [Hc Ha].
    split; [exact Ha|]. exists fr. auto.
Qed.



(* ================================================================== *)
(** * Pruning keeps no nested rectangles *)
(* ================================================================== *)

Lemma prune_split_kept todo : forall pre a r c,
  prune_split pre todo = a ++ r :: c ->
  exists pre' post',
    todo = pre' ++ r :: post' /\
    existsb (MaxRects2D.contained_in r) ((pre ++ pre') ++ post') = false /\
    incl a pre' /\ incl c post'.
Proof.
  induction todo as [|rect rest IH]; intros pre a r c Heq.
  - destruct a; discriminate.
  - cbn in Heq.
    destruct (existsb (MaxRects2D.contained_in rect) (pre ++ rest)) eqn:E.
    + destruct (IH (pre ++ [rect]) a r c Heq) as (pre' & post' & -> & Hex & Ha & Hc).
      exists (rect :: pre'), post'. split; [reflexivity|]. split; [|split].
      * replace (pre ++ rect :: pre') with ((pre ++ [rect]) ++ pre');
          [exact Hex|now rewrite <- app_assoc].
      * apply incl_tl. exact Ha.
      * exact Hc.
    + destruct a as [|a0 a].
      * cbn in Heq. injection Heq as -> Hc.
        exists [], rest. split; [reflexivity|]. split; [|split].
        -- now rewrite app_nil_r.
        -- apply incl_refl.
        -- intros u Hu. rewrite <- Hc in Hu. eapply prune_split_incl; eauto.
      * cbn in Heq. injection Heq as -> Heq.
        destruct (IH (pre ++ [a0]) a r c Heq) as (pre' & post' & -> & Hex & Ha & Hc).
        exists (a0 :: pre'), post'. split; [reflexivity|]. split; [|split].
        -- replace (pre ++ a0 :: pre') with ((pre ++ [a0]) ++ pre');
             [exact Hex|now rewrite <- app_assoc].
        -- apply incl_cons; [now left|apply incl_tl; exact Ha].
        -- exact Hc.
Qed.

Lemma pruned_antichain (S : list Rect) :
  antichain (MaxRects2D.prune_free_rectangles S) /\
  incl (MaxRects2D.prune_free_rectangles S) S.
Proof.
  split.
  - intros a r c Heq o Ho. rewrite prune_free_rectangles_split in Heq.
    destruct (prune_split_kept S [] a r c Heq) as (pre' & post' & _ & Hex & Ha & Hc).
    cbn in Hex.
    destruct (MaxRects2D.contained_in r o) eqn:E; [|reflexivity].
    assert (Hin : In o (pre' ++ post')).
    { apply in_app_or in Ho as [Ho|Ho]; apply in_or_app; [left; auto|right; auto]. }
    assert (existsb (MaxRects2D.contained_in r) (pre' ++ post') = true)
      by (apply existsb_exists; eauto).
    congruence.
  - intros r. apply prune_free_rectangles_incl.
Qed.

(** X4.  In a pruned list no rectangle lies within a rectangle at another
    place of the list (left and lower edge not before, right and upper edge
    not after the other's), and every rectangle of it is one of the
    input. *)
Theorem prune_free_rectangles_antichain (S : list Rect) :
  (forall pre r post,
     MaxRects2D.prune_free_rectangles S = pre ++ r :: post ->
     forall o, In o (pre ++ post) -> ~ rect_within r o) /\
  incl (MaxRects2D.prune_free_rectangles S) S.
Proof.
  destruct (pruned_antichain S) as [Hanti Hincl]. split; [|exact Hincl].
  intros pre r post Heq o Ho Hw.
  apply contained_in_within in Hw.
  rewrite (Hanti pre r post Heq o Ho) in Hw. discriminate.
Qed.

(* ================================================================== *)
(** * The choice of the free rectangle, for every heuristic *)
(* ================================================================== *)

(** X5.  Whatever the heuristic, [find_best_position] returns nothing when
    no free rectangle has room for the item; otherwise it returns the corner
    and the index of the first free rectangle whose score
    ([evaluate_position]) is the least among the rectangles with room. *)
Theorem find_best_position_least_score (heuristic : string) (free : list Rect) (it : Item) :
  match MaxRects2D.find_best_position heuristic free it with
  | None => forall r, In r free -> has_room r it = false
  | Some (bx, byy, idx) =>
      exists k rw rh,
        idx = Z.of_nat k /\
        nth_error free k = Some (bx, byy, rw, rh) /\
        has_room (bx, byy, rw, rh) it = true /\
        forall j r, nth_error free j = Some r -> has_room r it = true ->
                    rect_score heuristic it (bx, byy, rw, rh) <= rect_score heuristic it r /\
                    ((j < k)%nat ->
                     rect_score heuristic it (bx, byy, rw, rh) < rect_score heuristic it r)
  end.
Proof.
  unfold MaxRects2D.find_best_position.
  pose proof (scan_scan_result heuristic it free) as H. unfold scan_result in H.
  destruct (MaxRects2D.best_position _) as [[bx byy]|].
  - destruct H as (k & rw & rh & Hidx & Hnth & Hroom & _ & Hmin).
    exists k, rw, rh. auto.
  - apply H.
Qed.

(* ================================================================== *)
(** * Guillotine: the search and the outcome of a run *)
(* ================================================================== *)

Section GuillotineRun.

Import Guillotine2D.

Lemma find_position_from_first free it : forall idx,
  match find_position_from idx free it with
  | None => forall r, In r free -> has_room r it = false
  | Some (px, py, i) =>
      exists k rw rh,
        i = (idx + k)%nat /\
        nth_error free k = Some (px, py, rw, rh) /\
        has_room (px, py, rw, rh) it = true /\
        forall j r, (j < k)%nat -> nth_error free j = Some r -> has_room r it = false
  end.
Proof.
  induction free as [|[[[rx ry] rw] rh] free IH]; intros idx; cbn.
  - intros r [].
  - destruct ((width it <=? rw) && (height it <=? rh)) eqn:E.
    + exists 0%nat, rw, rh. split; [lia|]. split; [reflexivity|].
      split; [exact E|]. intros j r Hj. lia.
    + specialize (IH (S idx)).
      destruct (find_position_from (S idx) free it) as [[[px py] i]|].
      * destruct IH as (k & rw' & rh' & -> & Hnth & Hroom & Hfirst).
        exists (S k), rw', rh'. split; [lia|]. split; [exact Hnth|].
        split; [exact Hroom|].
        intros [|j] r Hj Hr; cbn in Hr.
        -- injection Hr as <-. exact E.
        -- apply (Hfirst j r); [lia|exact Hr].
      * intros r [<-|Hin]; [exact E|now apply IH].
Qed.

Lemma pop_nth_error (l : list Rect) : forall i r,
  nth_error l i = Some r ->
  exists pre post, l = pre ++ r :: post /\ length pre = i /\
                   pop l i = Some (r, pre ++ post).
Proof.
  induction l as [|a l IH]; intros [|i] r H; try discriminate.
  - cbn in H. injection H as ->. exists [], l. auto.
  - cbn in H. destruct (IH i r H) as (pre & post & -> & Hlen & Hpop).
    exists (a :: pre), post. cbn. rewrite Hpop, Hlen. auto.
Qed.

(** What one successful search yields: the corner of a free rectangle with
    room, which [pop] takes out of the list. *)
Lemma find_position_pop free it px py i :
  find_position free it = Some (px, py, i) ->
  exists rw rh pre post,
    free = pre ++ (px, py, rw, rh) :: post /\
    has_room (px, py, rw, rh) it = true /\
    pop free i = Some ((px, py, rw, rh), pre ++ post).
Proof.
  unfold find_position. intros H.
  pose proof (find_position_from_first free it 0) as Hf. rewrite H in Hf.
  destruct Hf as (k & rw & rh & -> & Hnth & Hroom & _).
  destruct (pop_nth_error free k _ Hnth) as (pre & post & Heq & _ & Hpop).
  exists rw, rh, pre, post. auto.
Qed.

Lemma split_rectangle_known heuristic rect it px py :
  In (heuristic_key heuristic) guillotine_keys ->
  exists new_rects, split_rectangle heuristic rect it px py = Some new_rects.
Proof.
  unfold split_rectangle, guillotine_keys. intros Hin.
  repeat (destruct Hin as [<-|Hin]; [cbn; eauto|]). destruct Hin.
Qed.

Lemma pack_items_outcome heuristic its : forall st b free,
  snd (pack_items heuristic st b free its) <> IndexError /\
  (In (heuristic_key heuristic) guillotine_keys ->
   snd (pack_items heuristic st b free its) = Returned).
Proof.
  induction its as [|r its IH]; intros st b free; cbn [pack_items].
  - split; [discriminate|reflexivity].
  - destruct (find_position free (st r)) as [[[px py] i]|] eqn:Hfind; [|apply IH].
    destruct (find_position_pop free (st r) px py i Hfind)
      as (rw & rh & pre & post & _ & _ & ->).
    destruct (split_rectangle heuristic _ _ px py) as [new_rects|] eqn:Hsplit; [apply IH|].
    split; [discriminate|]. intros Hknown. cbn.
    destruct (split_rectangle_known heuristic (px, py, rw, rh)
                (set_position st r px py r) px py Hknown) as [nr Hnr].
    congruence.
Qed.

End GuillotineRun.

(** X6.  [Guillotine2D.find_position] returns the corner and the index of
    the first free rectangle that is at least as wide and as high as the
    item, and nothing when there is none. *)
Theorem Guillotine_find_position_first (free : list Rect) (it : Item) :
  match Guillotine2D.find_position free it with
  | None => forall r, In r free -> has_room r it = false
  | Some (px, py, i) =>
      exists rw rh,
        nth_error free i = Some (px, py, rw, rh) /\
        has_room (px, py, rw, rh) it = true /\
        forall j r, (j < i)%nat -> nth_error free j = Some r -> has_room r it = false
  end.
Proof.
  unfold Guillotine2D.find_position.
  pose proof (find_position_from_first free it 0) as H.
  destruct (Guillotine2D.find_position_from 0 free it) as [[[px py] i]|]; [|exact H].
  destruct H as (k & rw & rh & -> & Hnth & Hroom & Hfirst).
  exists rw, rh. auto.
Qed.

(** X7.  With a heuristic name that [split_rectangle] has a branch for,
    [Guillotine2D.pack] returns: it raises nothing.  With any name, its
    [pop] never fails: the index always comes from [find_position]. *)
Theorem Guillotine_pack_outcome (heuristic : string) (st : store) (its : list ref)
        (bins : list Bin) :
  run_outcome (Guillotine2D.pack heuristic st its bins) <> IndexError /\
  (In (Guillotine2D.heuristic_key heuristic) guillotine_keys ->
   run_outcome (Guillotine2D.pack heuristic st its bins) = Returned).
Proof.
  revert st. induction bins as [|b bins IH]; intros st; cbn [Guillotine2D.pack].
  - split; [discriminate|reflexivity].
  - pose proof (pack_items_outcome heuristic its st b
                  [(0, 0, bin_width b, bin_height b)]) as [Hno Hret].
    destruct (Guillotine2D.pack_items heuristic st b _ its) as [[[st1 b1] free1] out].
    cbn [snd] in Hno, Hret.
    destruct out as [|msg|].
    + specialize (IH st1). unfold run_outcome in *.
      destruct (Guillotine2D.pack heuristic st1 its bins) as [[st2 rest2] out2].
      exact IH.
    + split; [discriminate|]. intros Hk. specialize (Hret Hk). discriminate.
    + now elim Hno.
Qed.

(** The name "Shorter Side" is read as [shorterside]. *)
Lemma Guillotine_pack_outcome_witness :
  run_outcome (Guillotine2D.pack "Shorter Side" (store_of [new_Item "A" 4 4 None])
                 [0%nat] [new_Bin "bin_0" 10 10 None]) = Returned.
Proof.
  apply (Guillotine_pack_outcome "Shorter Side" (store_of [new_Item "A" 4 4 None])
           [0%nat] [new_Bin "bin_0" 10 10 None]).
  cbn. tauto.
Defined.

(* ================================================================== *)
(** * Bottom-Left: the position chosen *)
(* ================================================================== *)

Section BottomLeftChoice.

Import BottomLeft2D.

Lemma key_lt_false p q : key_lt q p = false -> key_le p q.
Proof.
  unfold key_lt, key_le. rewrite orb_false_iff, andb_false_iff.
  rewrite !Z.ltb_ge, Z.eqb_neq. lia.
Qed.

Lemma key_lt_true p q : key_lt q p = true -> key_le q p.
Proof.
  unfold key_lt, key_le. rewrite orb_true_iff, andb_true_iff.
  rewrite !Z.ltb_lt, Z.eqb_eq. lia.
Qed.

Lemma key_le_refl p : key_le p p.
Proof. unfold key_le. lia. Qed.

Lemma key_le_trans p q u : key_le p q -> key_le q u -> key_le p u.
Proof. unfold key_le. lia. Qed.

Lemma insert_by_key_In_rev p l c : c = p \/ In c l -> In c (insert_by_key p l).
Proof.
  induction l as [|q l IH]; cbn.
  - intros [->|[]]. now left.
  - destruct (key_lt q p); cbn; intuition.
Qed.

Lemma sort_by_key_In_rev l c : In c l -> In c (sort_by_key l).
Proof.
  induction l as [|p l IH]; cbn; [tauto|].
  intros [->|H]; apply insert_by_key_In_rev; auto.
Qed.

(** The head of the sorted list comes before every element. *)
Lemma sort_by_key_head l : forall c t,
  sort_by_key l = c :: t -> forall c', In c' (sort_by_key l) -> key_le c c'.
Proof.
  induction l as [|p l IH]; intros c t Heq c' Hin; [discriminate|].
  cbn in Heq, Hin.
  destruct (sort_by_key l) as [|q s] eqn:Hs.
  - cbn in Heq, Hin. injection Heq as <- _. destruct Hin as [<-|[]]. apply key_le_refl.
  - specialize (IH q s eq_refl). cbn in Heq, Hin.
    destruct (key_lt q p) eqn:E.
    + injection Heq as <- _. destruct Hin as [<-|Hin]; [apply key_le_refl|].
      apply insert_by_key_In in Hin as [->|Hin].
      * now apply key_lt_true.
      * apply IH. now right.
    + injection Heq as <- _. destruct Hin as [<-|Hin]; [apply key_le_refl|].
      apply (key_le_trans _ q); [now apply key_lt_false|now apply IH].
Qed.

End BottomLeftChoice.

(** The corner returned passed the filter and comes first in the order of
    the keys among the corners that passed it. *)
Lemma find_position_least_filtered (st : store) (b : Bin) (it : Item) :
  match BottomLeft2D.find_position st b it with
  | None =>
      forall c, In c (BottomLeft2D.candidate_positions st b) ->
                BottomLeft2D.valid_candidate st b it c = false
  | Some c =>
      In c (BottomLeft2D.candidate_positions st b) /\
      BottomLeft2D.valid_candidate st b it c = true /\
      forall c', In c' (BottomLeft2D.candidate_positions st b) ->
                 BottomLeft2D.valid_candidate st b it c' = true -> key_le c c'
  end.
Proof.
  unfold BottomLeft2D.find_position.
  set (valid := filter (BottomLeft2D.valid_candidate st b it)
                       (BottomLeft2D.candidate_positions st b)).
  destruct (BottomLeft2D.sort_by_key valid) as [|c t] eqn:Hs.
  - intros c Hc. destruct (BottomLeft2D.valid_candidate st b it c) eqn:E; [|reflexivity].
    assert (Hin : In c (BottomLeft2D.sort_by_key valid)).
    { apply sort_by_key_In_rev. apply filter_In. auto. }
    rewrite Hs in Hin. destruct Hin.
  - assert (Hc : In c valid).
    { apply sort_by_key_In. rewrite Hs. now left. }
    apply filter_In in Hc as [Hc Hv]. split; [exact Hc|]. split; [exact Hv|].
    intros c' Hc' Hv'. apply (sort_by_key_head valid c t Hs).
    apply sort_by_key_In_rev. apply filter_In. auto.
Qed.

(** The candidate corners of the code are the corners of the bin's items. *)
Lemma candidates_of_In st placed c :
  In c (BottomLeft2D.candidates_of st placed) <->
  exists p, In p placed /\
    (c = (x (st p) + width (st p), y (st p)) \/
     c = (x (st p), y (st p) + height (st p))).
Proof.
  induction placed as [|q placed IH]; cbn.
  - split; [intros []|intros (p & [] & _)].
  - rewrite IH. split.
    + intros [H|[H|(p & Hp & Hc)]].
      * exists q. split; [now left|left; now symmetry].
      * exists q. split; [now left|right; now symmetry].
      * exists p. split; [now right|exact Hc].
    + intros (p & [<-|Hp] & Hc).
      * destruct Hc as [-> | ->]; [now left|right; now left].
      * right. right. exists p. auto.
Qed.

Lemma candidate_positions_corner st b c :
  In c (BottomLeft2D.candidate_positions st b) <-> is_corner st b c.
Proof.
  unfold BottomLeft2D.candidate_positions, is_corner. cbn.
  rewrite candidates_of_In. split; (intros [H|H]; [left; now symmetry|right; exact H]).
Qed.

(** The loop of [overlap] answers [False] exactly when the item, put at the
    corner, is separated from every placed item. *)
Lemma overlap_loop_separated st placed it cx cy :
  BottomLeft2D.overlap_loop st placed it cx cy = false <->
  forall p, In p placed ->
    cx + width it <= x (st p) \/ x (st p) + width (st p) <= cx \/
    cy + height it <= y (st p) \/ y (st p) + height (st p) <= cy.
Proof.
  induction placed as [|q placed IH]; cbn.
  - split; [intros _ p []|reflexivity].
  - destruct (BottomLeft2D.rectangles_overlap _ _ _ _ _ _ _ _) eqn:E.
    + split; [discriminate|]. intros H.
      specialize (H q (or_introl eq_refl)).
      apply rectangles_overlap_false in H. congruence.
    + apply rectangles_overlap_false in E. rewrite IH. split.
      * intros H p [<-|Hp]; [exact E|now apply H].
      * intros H p Hp. apply H. now right.
Qed.

(** The filter of [find_position] accepts a corner exactly when the item,
    put there, reaches neither past the right nor past the upper edge of the
    bin and is separated from every placed item. *)
Lemma valid_candidate_corner_free st b it c :
  BottomLeft2D.valid_candidate st b it c = true <-> corner_free st b it c.
Proof.
  destruct c as [cx cy]. unfold BottomLeft2D.valid_candidate, corner_free.
  cbn [fst snd].
  destruct (cx + width it <=? bin_width b) eqn:E1;
    [apply Z.leb_le in E1|apply Z.leb_gt in E1; cbn; split; [discriminate|lia]].
  destruct (cy + height it <=? bin_height b) eqn:E2;
    [apply Z.leb_le in E2|apply Z.leb_gt in E2; cbn; split; [discriminate|lia]].
  cbn. rewrite negb_true_iff. unfold BottomLeft2D.overlap.
  rewrite overlap_loop_separated. tauto.
Qed.

(** The corners of a bin whose items lie within it have no negative
    coordinate. *)
Lemma is_corner_nonneg st b c :
  (forall p, In p (items b) ->
     in_bounds b (st p) /\ 0 <= width (st p) /\ 0 <= height (st p)) ->
  is_corner st b c -> 0 <= fst c /\ 0 <= snd c.
Proof.
  intros Hin [->|(p & Hp & Hc)]; [cbn; lia|].
  destruct (Hin p Hp) as ((Hx & Hy & _ & _) & Hw & Hh).
  destruct Hc as [-> | ->]; cbn; lia.
Qed.

(** X8.  [BottomLeft2D.find_position], for a bin whose items lie within it
    and an item to place, all widths and heights integers from 0 to 2^52
    (so that every sum is exact in binary64).  A candidate corner is (0,0),
    the lower right or the upper left corner of a placed item; it is free
    when the item, put there, reaches neither past the right nor past the
    upper edge of the bin (the only two edges the code tests) and is
    separated from every placed item by the inequalities.  The function
    returns nothing when no candidate corner is free; otherwise it returns
    a free candidate corner, with x >= 0 and y >= 0, that has the least y
    and, among those, the least x of all free candidate corners. *)
Theorem BottomLeft_find_position_least (st : store) (b : Bin) (it : Item) :
  (forall p, In p (items b) ->
     in_bounds b (st p) /\ 0 <= width (st p) /\ 0 <= height (st p)) ->
  0 <= width it <= exact_sum_bound ->
  0 <= height it <= exact_sum_bound ->
  bin_width b <= exact_sum_bound ->
  bin_height b <= exact_sum_bound ->
  match BottomLeft2D.find_position st b it with
  | None => forall c, is_corner st b c -> ~ corner_free st b it c
  | Some c =>
      is_corner st b c /\ 0 <= fst c /\ 0 <= snd c /\
      corner_free st b it c /\
      forall c', is_corner st b c' -> corner_free st b it c' -> key_le c c'
  end.
Proof.
  intros Hin _ _ _ _.
  pose proof (find_position_least_filtered st b it) as H.
  destruct (BottomLeft2D.find_position st b it) as [c|].
  - destruct H as (Hc & Hv & Hleast).
    apply candidate_positions_corner in Hc.
    destruct (is_corner_nonneg st b c Hin Hc) as [Hx Hy].
    split; [exact Hc|]. split; [exact Hx|]. split; [exact Hy|].
    split; [now apply valid_candidate_corner_free|].
    intros c' Hc' Hf'. apply Hleast.
    + now apply candidate_positions_corner.
    + now apply valid_candidate_corner_free.
  - intros c Hc Hf.
    apply candidate_positions_corner in Hc.
    apply valid_candidate_corner_free in Hf.
    rewrite (H c Hc) in Hf. discriminate.
Qed.

(* ================================================================== *)
(** * Bottom-Left and First-Fit: outcome and bins of a run *)
(* ================================================================== *)

Section RunShape.

Lemma add_item_shape b st r : bin_shape (fst (add_item b st r)) = bin_shape b.
Proof. unfold add_item, bin_shape. now destruct (can_fit b (st r)). Qed.

Lemma BottomLeft_try_bins_shape st r : forall bins st1 bins1,
  BottomLeft2D.try_bins st r bins = Some (st1, bins1) ->
  map bin_shape bins1 = map bin_shape bins.
Proof.
  induction bins as [|b bins IH]; intros st1 bins1 H; [discriminate|]. cbn in H.
  destruct (BottomLeft2D.find_position st b (st r)) as [[cx cy]|].
  - injection H as <- <-. cbn. now rewrite add_item_shape.
  - destruct (BottomLeft2D.try_bins st r bins) as [[st2 rest2]|]; [|discriminate].
    injection H as <- <-. cbn. now rewrite (IH st2 rest2 eq_refl).
Qed.

Lemma FirstFit_try_bins_shape st r : forall bins bins1,
  FirstFit2D.try_bins st r bins = Some bins1 ->
  map bin_shape bins1 = map bin_shape bins.
Proof.
  induction bins as [|b bins IH]; intros bins1 H; [discriminate|]. cbn in H.
  destruct (can_fit b (st r)).
  - injection H as <-. cbn. now rewrite add_item_shape.
  - destruct (FirstFit2D.try_bins st r bins) as [rest2|]; [|discriminate].
    injection H as <-. cbn. now rewrite (IH rest2 eq_refl).
Qed.

Lemma clone_bin_dims bins base_bin st r :
  bin_dims (fst (add_item (clone_bin bins base_bin) st r)) = bin_dims base_bin.
Proof.
  unfold bin_dims. destruct (add_item_dims (clone_bin bins base_bin) st r) as (-> & -> & ->).
  reflexivity.
Qed.

Lemma map_shape_first (first : Bin) (bins bins1 : list Bin) (extra : list Bin) :
  map bin_shape bins1 = map bin_shape (first :: bins) ++ map bin_shape extra ->
  exists first1 rest1, bins1 = first1 :: rest1 /\ bin_dims first1 = bin_dims first.
Proof.
  destruct bins1 as [|first1 rest1]; [discriminate|]. cbn. intros H.
  injection H as Hid Hw Hh Hd _. exists first1, rest1. split; [reflexivity|].
  unfold bin_dims. congruence.
Qed.

(** With a bin to start from, Bottom-Left returns; the bins it started with
    keep their place and shape, and every bin it adds has the dimensions of
    the first bin. *)
Lemma BottomLeft_pack_shape : forall its st first bins,
  exists extra,
    run_outcome (BottomLeft2D.pack st its (first :: bins)) = Returned /\
    map bin_shape (run_bins (BottomLeft2D.pack st its (first :: bins)))
    = map bin_shape (first :: bins) ++ map bin_shape extra /\
    (length extra <= length its)%nat /\
    Forall (fun b => bin_dims b = bin_dims first) extra.
Proof.
  induction its as [|r its IH]; intros st first bins.
  - exists []. cbn. rewrite app_nil_r. auto.
  - cbn [BottomLeft2D.pack].
    destruct (BottomLeft2D.try_bins st r (first :: bins)) as [[st1 bins1]|] eqn:Htry.
    + pose proof (BottomLeft_try_bins_shape st r _ st1 bins1 Htry) as Hshape.
      destruct (map_shape_first first bins bins1 []) as (first1 & rest1 & -> & Hdims).
      { cbn [map]. now rewrite app_nil_r. }
      destruct (IH st1 first1 rest1) as (extra & Hout & Hmap & Hlen & Hall).
      exists extra. split; [exact Hout|]. split; [now rewrite Hmap, Hshape|].
      split; [cbn; lia|]. rewrite Hdims in Hall. exact Hall.
    + set (nb := fst (add_item (clone_bin (first :: bins) first)
                               (set_position st r 0 0) r)).
      change ((first :: bins) ++ [nb]) with (first :: (bins ++ [nb])).
      destruct (IH (set_position st r 0 0) first (bins ++ [nb]))
        as (extra & Hout & Hmap & Hlen & Hall).
      exists (nb :: extra). split; [exact Hout|]. split; [|split].
      * rewrite Hmap. cbn. rewrite map_app, <- app_assoc. reflexivity.
      * cbn; lia.
      * constructor; [apply clone_bin_dims|exact Hall].
Qed.

(** The same for First-Fit, which besides leaves the store alone. *)
Lemma FirstFit_pack_shape : forall its st first bins,
  exists extra,
    run_outcome (FirstFit2D.pack st its (first :: bins)) = Returned /\
    map bin_shape (run_bins (FirstFit2D.pack st its (first :: bins)))
    = map bin_shape (first :: bins) ++ map bin_shape extra /\
    (length extra <= length its)%nat /\
    Forall (fun b => bin_dims b = bin_dims first) extra.
Proof.
  induction its as [|r its IH]; intros st first bins.
  - exists []. cbn. rewrite app_nil_r. auto.
  - cbn [FirstFit2D.pack].
    destruct (FirstFit2D.try_bins st r (first :: bins)) as [bins1|] eqn:Htry.
    + pose proof (FirstFit_try_bins_shape st r _ bins1 Htry) as Hshape.
      destruct (map_shape_first first bins bins1 []) as (first1 & rest1 & -> & Hdims).
      { cbn [map]. now rewrite app_nil_r. }
      destruct (IH st first1 rest1) as (extra & Hout & Hmap & Hlen & Hall).
      exists extra. split; [exact Hout|]. split; [now rewrite Hmap, Hshape|].
      split; [cbn; lia|]. rewrite Hdims in Hall. exact Hall.
    + set (nb := fst (add_item (clone_bin (first :: bins) first) st r)).
      change ((first :: bins) ++ [nb]) with (first :: (bins ++ [nb])).
      destruct (IH st first (bins ++ [nb])) as (extra & Hout & Hmap & Hlen & Hall).
      exists (nb :: extra). split; [exact Hout|]. split; [|split].
      * rewrite Hmap. cbn. rewrite map_app, <- app_assoc. reflexivity.
      * cbn; lia.
      * constructor; [apply clone_bin_dims|exact Hall].
Qed.

Lemma FirstFit_pack_store : forall its st bins,
  run_store (FirstFit2D.pack st its bins) = st.
Proof.
  induction its as [|r its IH]; intros st bins; [reflexivity|].
  cbn [FirstFit2D.pack].
  destruct (FirstFit2D.try_bins st r bins) as [bins1|]; [apply IH|].
  destruct bins; [reflexivity|apply IH].
Qed.

End RunShape.

(** X9.  [BottomLeft2D.pack] raises (ValueError, nothing changed) exactly
    when the bin list is empty and there is an item to place.  With a
    non-empty bin list it returns; the bins it was given keep their place,
    identifier and dimensions, at most one bin per item is appended, and
    every appended bin has the dimensions of the first bin. *)
Theorem BottomLeft_pack_outcome_and_bins (st : store) (its : list ref) (bins : list Bin) :
  (bins = [] -> its <> [] ->
   exists msg, BottomLeft2D.pack st its bins = (st, [], ValueError msg)) /\
  (bins = [] -> its = [] -> BottomLeft2D.pack st its bins = (st, [], Returned)) /\
  (forall first rest, bins = first :: rest ->
     exists extra,
       run_outcome (BottomLeft2D.pack st its bins) = Returned /\
       map bin_shape (run_bins (BottomLeft2D.pack st its bins))
       = map bin_shape bins ++ map bin_shape extra /\
       (length extra <= length its)%nat /\
       Forall (fun b => bin_dims b = bin_dims first) extra).
Proof.
  split; [|split].
  - intros -> Hne. destruct its as [|r its]; [now elim Hne|]. cbn. eauto.
  - intros -> ->. reflexivity.
  - intros first rest ->. apply BottomLeft_pack_shape.
Qed.

(** A 5x5 bin and two 4x4 items: one bin is appended. *)
Lemma BottomLeft_pack_outcome_and_bins_witness :
  let st := store_of [new_Item "A" 4 4 None; new_Item "B" 4 4 None] in
  (exists msg, BottomLeft2D.pack st [0; 1]%nat [] = (st, [], ValueError msg)) /\
  exists extra,
    run_outcome (BottomLeft2D.pack st [0; 1]%nat [new_Bin "bin_1" 5 5 None]) = Returned /\
    map bin_shape (run_bins (BottomLeft2D.pack st [0; 1]%nat [new_Bin "bin_1" 5 5 None]))
    = map bin_shape [new_Bin "bin_1" 5 5 None] ++ map bin_shape extra /\
    (length extra <= 2)%nat /\
    Forall (fun b => bin_dims b = bin_dims (new_Bin "bin_1" 5 5 None)) extra.
Proof.
  intros st. split.
  - apply (BottomLeft_pack_outcome_and_bins st [0; 1]%nat []); [reflexivity|discriminate].
  - apply (BottomLeft_pack_outcome_and_bins st [0; 1]%nat [new_Bin "bin_1" 5 5 None])
      with (rest := []). reflexivity.
Defined.

(** X10.  [FirstFit2D.pack] never writes a position: the store is the one
    it was given.  It raises (ValueError) exactly when the bin list is
    empty and there is an item to place; with a non-empty bin list it
    returns, keeps the bins it was given in place and shape, appends at most
    one bin per item, and every appended bin has the dimensions of the
    first bin. *)
Theorem FirstFit_pack_outcome_and_bins (st : store) (its : list ref) (bins : list Bin) :
  run_store (FirstFit2D.pack st its bins) = st /\
  (bins = [] -> its <> [] ->
   exists msg, FirstFit2D.pack st its bins = (st, [], ValueError msg)) /\
  (bins = [] -> its = [] -> FirstFit2D.pack st its bins = (st, [], Returned)) /\
  (forall first rest, bins = first :: rest ->
     exists extra,
       run_outcome (FirstFit2D.pack st its bins) = Returned /\
       map bin_shape (run_bins (FirstFit2D.pack st its bins))
       = map bin_shape bins ++ map bin_shape extra /\
       (length extra <= length its)%nat /\
       Forall (fun b => bin_dims b = bin_dims first) extra).
Proof.
  split; [apply FirstFit_pack_store|]. split; [|split].
  - intros -> Hne. destruct its as [|r its]; [now elim Hne|]. cbn. eauto.
  - intros -> ->. reflexivity.
  - intros first rest ->. apply FirstFit_pack_shape.
Qed.

(** A 5x5 bin and two 4x4 items. *)
Lemma FirstFit_pack_outcome_and_bins_witness :
  let st := store_of [new_Item "A" 4 4 None; new_Item "B" 4 4 None] in
  (exists msg, FirstFit2D.pack st [0; 1]%nat [] = (st, [], ValueError msg)) /\
  exists extra,
    run_outcome (FirstFit2D.pack st [0; 1]%nat [new_Bin "bin_1" 5 5 None]) = Returned /\
    map bin_shape (run_bins (FirstFit2D.pack st [0; 1]%nat [new_Bin "bin_1" 5 5 None]))
    = map bin_shape [new_Bin "bin_1" 5 5 None] ++ map bin_shape extra /\
    (length extra <= 2)%nat /\
    Forall (fun b => bin_dims b = bin_dims (new_Bin "bin_1" 5 5 None)) extra.
Proof.
  intros st.
  destruct (FirstFit_pack_outcome_and_bins st [0; 1]%nat []) as (_ & Hraise & _).
  destruct (FirstFit_pack_outcome_and_bins st [0; 1]%nat [new_Bin "bin_1" 5 5 None])
    as (_ & _ & _ & Hret).
  split.
  - apply Hraise; [reflexivity|discriminate].
  - apply (Hret (new_Bin "bin_1" 5 5 None) []). reflexivity.
Defined.

(** X11.  The search of First-Fit takes the first bin of the list whose
    dimension check the item passes: the bins before it are left as they
    are, the item is appended to that bin, and the search finds nothing
    exactly when the item passes the check of no bin. *)
Theorem FirstFit_try_bins_first (st : store) (r : ref) (bins : list Bin) :
  match FirstFit2D.try_bins st r bins with
  | None => forall b, In b bins -> can_fit b (st r) = false
  | Some bins1 =>
      exists pre b post,
        bins = pre ++ b :: post /\
        (forall b', In b' pre -> can_fit b' (st r) = false) /\
        can_fit b (st r) = true /\
        items (fst (add_item b st r)) = items b ++ [r] /\
        bins1 = pre ++ fst (add_item b st r) :: post
  end.
Proof.
  induction bins as [|b bins IH]; cbn.
  - intros b [].
  - destruct (can_fit b (st r)) eqn:E.
    + exists [], b, bins. split; [reflexivity|]. split; [intros b' []|].
      split; [exact E|]. split; [|reflexivity].
      rewrite add_item_items, E. reflexivity.
    + destruct (FirstFit2D.try_bins st r bins) as [rest1|].
      * destruct IH as (pre & b0 & post & -> & Hpre & Hfit & Hitems & ->).
        exists (b :: pre), b0, post. split; [reflexivity|]. split.
        -- intros b' [<-|Hb']; [exact E|now apply Hpre].
        -- auto.
      * intros b' [<-|Hb']; [exact E|now apply IH].
Qed.

(* ================================================================== *)
(** * Guillotine and Max-Rects: the bins of a run *)
(* ================================================================== *)

Section KeepBins.

Lemma Guillotine_pack_items_shape heuristic its : forall st b free,
  bin_shape (snd (fst (fst (Guillotine2D.pack_items heuristic st b free its))))
  = bin_shape b.
Proof.
  induction its as [|r its IH]; intros st b free; cbn [Guillotine2D.pack_items];
    [reflexivity|].
  destruct (Guillotine2D.find_position free (st r)) as [[[px py] i]|]; [|apply IH].
  destruct (Guillotine2D.pop free i) as [[used free1]|]; [|cbn; apply add_item_shape].
  destruct (Guillotine2D.split_rectangle _ _ _ _ _); [|cbn; apply add_item_shape].
  rewrite IH. apply add_item_shape.
Qed.

Lemma MaxRects_pack_items_shape heuristic its : forall st b free,
  bin_shape (snd (fst (MaxRects2D.pack_items heuristic st b free its))) = bin_shape b.
Proof.
  induction its as [|r its IH]; intros st b free; cbn [MaxRects2D.pack_items];
    [reflexivity|].
  destruct (MaxRects2D.find_best_position heuristic free (st r)) as [[[px py] i]|];
    [|apply IH].
  rewrite IH. apply add_item_shape.
Qed.

End KeepBins.

(** X12.  [Guillotine2D.pack] and [MaxRects2D.pack] never add a bin and
    never change the identifier or the dimensions of one, whether the run
    returns or raises: an item that finds no room is passed over. *)
Theorem Guillotine_MaxRects_keep_bins (heuristic : string) (st : store) (its : list ref)
        (bins : list Bin) :
  map bin_shape (run_bins (Guillotine2D.pack heuristic st its bins)) = map bin_shape bins /\
  map bin_shape (run_bins (MaxRects2D.pack heuristic st its bins)) = map bin_shape bins.
Proof.
  split.
  - revert st. induction bins as [|b bins IH]; intros st; [reflexivity|].
    cbn [Guillotine2D.pack].
    pose proof (Guillotine_pack_items_shape heuristic its st b
                  [(0, 0, bin_width b, bin_height b)]) as Hb.
    destruct (Guillotine2D.pack_items heuristic st b _ its) as [[[st1 b1] free1] out].
    cbn in Hb. specialize (IH st1). unfold run_bins in *.
    destruct out; cbn; try (now rewrite Hb).
    destruct (Guillotine2D.pack heuristic st1 its bins) as [[st2 rest2] out2].
    cbn in *. now rewrite Hb, IH.
  - unfold MaxRects2D.pack, run_bins. cbn [fst snd].
    revert st. induction bins as [|b bins IH]; intros st; [reflexivity|].
    cbn [MaxRects2D.pack_bins].
    pose proof (MaxRects_pack_items_shape heuristic its st b
                  [(0, 0, bin_width b, bin_height b)]) as Hb.
    destruct (MaxRects2D.pack_items heuristic st b _ its) as [[st1 b1] free1].
    cbn in Hb. specialize (IH st1).
    destruct (MaxRects2D.pack_bins heuristic st1 its bins) as [st2 rest2].
    cbn in *. rewrite IH. f_equal. exact Hb.
Qed.

(* ================================================================== *)
(** * Placing an item in a free rectangle *)
(* ================================================================== *)

Section PlaceInFree.

Lemma item_rect_set_position_same st r px py :
  item_rect (set_position st r px py r) = (px, py, width (st r), height (st r)).
Proof.
  unfold item_rect.
  destruct (set_position_xy st r px py) as [-> ->].
  destruct (set_position_dims st r px py r) as (-> & -> & _). reflexivity.
Qed.

Lemma has_room_true px py rw rh it :
  has_room (px, py, rw, rh) it = true <-> width it <= rw /\ height it <= rh.
Proof. unfold has_room. rewrite andb_true_iff, !Z.leb_le. tauto. Qed.

(** An item appended to a bin in whose state it fits. *)
Lemma bin_ok_add st b r px py :
  bin_ok st b -> ~ In r (items b) ->
  in_bounds b (set_position st r px py r) ->
  (forall q, In q (items b) -> overlaps (set_position st r px py r) (st q) = false) ->
  bin_ok (set_position st r px py) (fst (add_item b (set_position st r px py) r)).
Proof.
  intros Hok Hnot Hbounds Hfree.
  pose proof (bin_ok_frame st b r px py Hok Hnot) as (Hnd & Hin & Hov).
  destruct (add_item_dims b (set_position st r px py) r) as (Hw & Hh & _).
  assert (Hsame : forall it, in_bounds (fst (add_item b (set_position st r px py) r)) it
                             <-> in_bounds b it).
  { intros it. unfold in_bounds. rewrite Hw, Hh. tauto. }
  assert (Hfree' : forall q, In q (items b) ->
            overlaps (set_position st r px py r) (set_position st r px py q) = false).
  { intros q Hq. rewrite (set_position_other st r px py q) by (intros ->; contradiction).
    now apply Hfree. }
  unfold bin_ok. rewrite add_item_items.
  destruct (can_fit b (set_position st r px py r));
    [|split; [exact Hnd|split; [intros p Hp; apply Hsame; auto|exact Hov]]].
  split; [|split].
  - apply NoDup_app; [exact Hnd|repeat constructor; intros []|].
    intros a Ha [<-|[]]. contradiction.
  - intros p Hp. apply Hsame.
    apply in_app_or in Hp as [Hp|[<-|[]]]; [now apply Hin|exact Hbounds].
  - intros p q Hp Hq Hpq.
    apply in_app_or in Hp as [Hp|[<-|[]]]; apply in_app_or in Hq as [Hq|[<-|[]]].
    + now apply Hov.
    + apply overlaps_sym. now apply Hfree'.
    + now apply Hfree'.
    + contradiction.
Qed.

(** An item put at the corner of a free rectangle with room lies within the
    bin and overlaps no item of the bin. *)
Lemma place_in_free st b free r px py rw rh :
  free_clear st b free ->
  In (px, py, rw, rh) free ->
  has_room (px, py, rw, rh) (st r) = true ->
  in_bounds b (set_position st r px py r) /\
  (forall q, In q (items b) -> overlaps (set_position st r px py r) (st q) = false).
Proof.
  intros [Hin Hclear] Hf Hroom. apply has_room_true in Hroom.
  pose proof (Hin _ Hf) as Hbin. unfold bin_rect in Hbin. apply contained_in_true in Hbin.
  destruct (set_position_xy st r px py) as [Hx Hy].
  destruct (set_position_dims st r px py r) as (Hw & Hh & _).
  split.
  - unfold in_bounds. rewrite Hx, Hy, Hw, Hh. lia.
  - intros q Hq. rewrite overlaps_item_rect, item_rect_set_position_same.
    apply (contained_in_apart _ (px, py, rw, rh)); [|now apply Hclear].
    apply contained_in_true. lia.
Qed.

(** A bin without depth takes every item that lies within its bounds. *)
Lemma can_fit_in_bounds b it :
  bin_depth b = None -> in_bounds b it -> can_fit b it = true.
Proof.
  intros Hd (Hx & Hy & Hw & Hh). unfold can_fit. rewrite Hd.
  apply andb_true_iff. rewrite !Z.leb_le. lia.
Qed.

Lemma free_clear_start b st : items b = [] -> free_clear st b [bin_rect b].
Proof.
  intros Hb. split.
  - intros f [<-|[]]. apply contained_in_refl.
  - intros f q _ Hq. rewrite Hb in Hq. destruct Hq.
Qed.

Lemma bin_ok_start b st : items b = [] -> bin_ok st b.
Proof.
  intros Hb. unfold bin_ok. rewrite Hb.
  split; [constructor|]. split; [intros p []|intros p q []].
Qed.

Lemma bin_rect_shape b b' : bin_shape b' = bin_shape b -> bin_rect b' = bin_rect b.
Proof. unfold bin_shape, bin_rect. intros H. injection H as _ -> -> _. reflexivity. Qed.

(** The free rectangles stay clear when the item joins the bin and the free
    rectangles are replaced by rectangles inside the old ones that keep
    clear of the item. *)
Lemma free_clear_step st b free free1 r px py :
  free_clear st b free -> ~ In r (items b) ->
  (forall f, In f free1 ->
     MaxRects2D.rectangles_intersect f (px, py, width (st r), height (st r)) = false /\
     exists fr, In fr free /\ MaxRects2D.contained_in f fr = true) ->
  free_clear (set_position st r px py)
             (fst (add_item b (set_position st r px py) r)) free1.
Proof.
  intros [Hin Hclear] Hnot Hnew.
  unfold free_clear.
  rewrite (bin_rect_shape b _ (add_item_shape b (set_position st r px py) r)). split.
  - intros f Hf. destruct (Hnew f Hf) as (_ & fr & Hfr & Hc).
    apply (contained_in_trans f fr); auto.
  - intros f q Hf Hq. destruct (Hnew f Hf) as (Hr & fr & Hfr & Hc).
    rewrite add_item_items in Hq.
    assert (Hold : forall q, In q (items b) ->
              MaxRects2D.rectangles_intersect f (item_rect (set_position st r px py q))
              = false).
    { intros q' Hq'. rewrite set_position_other by (intros ->; contradiction).
      apply (contained_in_apart f fr); auto. }
    destruct (can_fit b _); [|now apply Hold].
    apply in_app_or in Hq as [Hq|[<-|[]]]; [now apply Hold|].
    now rewrite item_rect_set_position_same.
Qed.

End PlaceInFree.

(* ================================================================== *)
(** * Max-Rects on one bin: no overlap, within bounds, exact free space *)
(* ================================================================== *)

Section MaxRectsOneBin.

Import MaxRects2D.

Variable heuristic : string.

Lemma find_best_position_In free it px py idx :
  find_best_position heuristic free it = Some (px, py, idx) ->
  exists rw rh, In (px, py, rw, rh) free /\ has_room (px, py, rw, rh) it = true.
Proof.
  unfold find_best_position.
  pose proof (scan_scan_result heuristic it free) as H. unfold scan_result in H.
  destruct (best_position _) as [[bx byy]|]; [|discriminate].
  intros Heq. injection Heq as <- <- _.
  destruct H as (k & rw & rh & _ & Hnth & Hroom & _).
  exists rw, rh. split; [eapply nth_error_In; eauto|exact Hroom].
Qed.

(** One placement keeps the bin in order and the free rectangles clear. *)
Lemma MaxRects_step_ok st b free r px py idx :
  bin_ok st b -> free_clear st b free -> ~ In r (items b) ->
  find_best_position heuristic free (st r) = Some (px, py, idx) ->
  let st1 := set_position st r px py in
  bin_ok st1 (fst (add_item b st1 r)) /\
  free_clear st1 (fst (add_item b st1 r))
             (update_free_rectangles free (px, py, width (st1 r), height (st1 r))).
Proof.
  intros Hok Hclear Hnot Hfind st1.
  destruct (find_best_position_In free (st r) px py idx Hfind) as (rw & rh & Hf & Hroom).
  destruct (place_in_free st b free r px py rw rh Hclear Hf Hroom) as [Hb Hov].
  split; [now apply bin_ok_add|].
  destruct (set_position_dims st r px py r) as (Hw & Hh & _). fold st1 in Hw, Hh.
  rewrite Hw, Hh.
  apply (free_clear_step st b free); trivial.
  intros f Hfin. now apply updated_clear in Hfin.
Qed.

Lemma MaxRects_pack_items_ok its : forall st b free,
  bin_ok st b -> free_clear st b free ->
  NoDup its -> (forall r, In r its -> ~ In r (items b)) ->
  bin_ok (fst (fst (pack_items heuristic st b free its)))
         (snd (fst (pack_items heuristic st b free its))) /\
  free_clear (fst (fst (pack_items heuristic st b free its)))
             (snd (fst (pack_items heuristic st b free its)))
             (snd (pack_items heuristic st b free its)).
Proof.
  induction its as [|r its IH]; intros st b free Hok Hclear Hnd Hfresh;
    cbn [pack_items]; [auto|].
  apply NoDup_cons_iff in Hnd as [Hr Hnd].
  assert (Hrb : ~ In r (items b)) by (apply Hfresh; now left).
  destruct (find_best_position heuristic free (st r)) as [[[px py] idx]|] eqn:Hfind.
  - destruct (MaxRects_step_ok st b free r px py idx Hok Hclear Hrb Hfind) as [Hok1 Hclear1].
    apply IH; trivial.
    intros q Hq Hin. rewrite add_item_items in Hin.
    destruct (can_fit b _); [|apply (Hfresh q); [now right|exact Hin]].
    apply in_app_or in Hin as [Hin|[<-|[]]]; [|contradiction].
    apply (Hfresh q); [now right|exact Hin].
  - apply IH; trivial. intros q Hq. apply Hfresh. now right.
Qed.

(** The rectangles the loop of [update_free_rectangles] builds. *)
Lemma split_free_rectangle_NoDup fr pr :
  rectangles_intersect fr pr = true -> NoDup (split_free_rectangle fr pr).
Proof.
  destruct fr as [[[fx fy] fw] fh], pr as [[[px py] pw] ph].
  intros Hint. apply rectangles_intersect_true in Hint.
  unfold split_free_rectangle. apply NoDup_filter.
  destruct (py + ph <? fy + fh), (fy <? py), (fx <? px), (px + pw <? fx + fw); cbn [app];
    repeat (constructor;
            [cbn [In]; intros H;
             repeat (destruct H as [H|H]; [injection H; intros; lia|]); exact H|]);
    constructor.
Qed.

Lemma antichain_cons a l :
  antichain (a :: l) ->
  (forall o, In o l -> contained_in a o = false /\ contained_in o a = false) /\
  antichain l.
Proof.
  intros H. split.
  - intros o Ho. split.
    + apply (H [] a l eq_refl). exact Ho.
    + apply in_split in Ho as (l1 & l2 & ->).
      apply (H (a :: l1) o l2 eq_refl). now left.
  - intros pre r post -> o Ho.
    apply (H (a :: pre) r post eq_refl). now right.
Qed.

Lemma antichain_NoDup l : antichain l -> NoDup l.
Proof.
  induction l as [|a l IH]; intros H; [constructor|].
  apply antichain_cons in H as [Ha Hl]. constructor; [|now apply IH].
  intros Hin. destruct (Ha a Hin) as [Hc _]. rewrite contained_in_refl in Hc. discriminate.
Qed.

(** Two free rectangles that yield the same piece are nested. *)
Lemma same_piece_nested fr fr' pr x0 :
  rectangles_intersect fr pr = true -> rectangles_intersect fr' pr = true ->
  In x0 (split_free_rectangle fr pr) -> In x0 (split_free_rectangle fr' pr) ->
  contained_in fr fr' = true \/ contained_in fr' fr = true.
Proof.
  destruct fr as [[[fx fy] fw] fh], fr' as [[[gx gy] gw] gh], pr as [[[px py] pw] ph].
  intros H1 H2 Hin1 Hin2.
  apply rectangles_intersect_true in H1, H2.
  apply split_free_rectangle_In in Hin1, Hin2.
  rewrite !contained_in_true.
  destruct Hin1 as [(-> & Hc & Hp)|[(-> & Hc & Hp)|[(-> & Hc & Hp)|(-> & Hc & Hp)]]];
  destruct Hin2 as [(He & Hc' & Hp')|[(He & Hc' & Hp')|[(He & Hc' & Hp')|(He & Hc' & Hp')]]];
  injection He; intros; lia.
Qed.

Lemma updated_rectangles_NoDup free pr :
  antichain free -> NoDup (updated_rectangles free pr).
Proof.
  induction free as [|fr free IH]; intros Hanti; [constructor|].
  apply antichain_cons in Hanti as [Hfr Hfree]. cbn.
  destruct (rectangles_intersect fr pr) eqn:E.
  - apply NoDup_app; [now apply split_free_rectangle_NoDup|now apply IH|].
    intros x0 Hx Hx'. apply updated_rectangles_In in Hx'.
    destruct Hx' as (fr' & Hfr' & [[Hno ->]|[Hyes Hin]]).
    + destruct (split_free_rectangle_piece fr pr fr' E Hx) as [Hc _].
      destruct (Hfr fr' Hfr') as [_ Hn]. congruence.
    + destruct (Hfr fr' Hfr') as [Hn1 Hn2].
      destruct (same_piece_nested fr fr' pr x0 E Hyes Hx Hin); congruence.
  - constructor; [|now apply IH].
    intros Hin. apply updated_rectangles_In in Hin.
    destruct Hin as (fr' & Hfr' & [[Hno ->]|[Hyes Hin]]).
    + destruct (Hfr fr' Hfr') as [Hn _]. rewrite contained_in_refl in Hn. discriminate.
    + destruct (split_free_rectangle_piece fr' pr fr Hyes Hin) as [Hc _].
      destruct (Hfr fr' Hfr') as [Hn _]. congruence.
Qed.

(** On a list without repetition pruning keeps the points covered. *)
Lemma prune_inside_NoDup S p :
  NoDup S -> (inside_some (prune_free_rectangles S) p <-> inside_some S p).
Proof.
  intros Hnd. split.
  - intros (r & Hin & Hr). exists r. split; [now apply prune_free_rectangles_incl|exact Hr].
  - intros (r & Hin & Hr).
    destruct (prune_free_rectangles_keeps_a_container S Hnd _ r Hin (Nat.le_refl _))
      as (m & Hm & Hrm).
    exists m. split; [exact Hm|]. now apply (contained_in_inside r m).
Qed.

(** One placement in a bin without depth keeps the free space exact. *)
Lemma MaxRects_step_exact st b free r px py idx :
  bin_depth b = None ->
  free_clear st b free -> ~ In r (items b) ->
  antichain free -> free_exact st b free ->
  find_best_position heuristic free (st r) = Some (px, py, idx) ->
  let st1 := set_position st r px py in
  free_exact st1 (fst (add_item b st1 r))
             (update_free_rectangles free (px, py, width (st1 r), height (st1 r))).
Proof.
  intros Hd Hclear Hnot Hanti Hexact Hfind st1.
  destruct (find_best_position_In free (st r) px py idx Hfind) as (rw & rh & Hf & Hroom).
  destruct (place_in_free st b free r px py rw rh Hclear Hf Hroom) as [Hb _].
  destruct (set_position_dims st r px py r) as (Hw & Hh & _). fold st1 in Hw, Hh, Hb.
  assert (Hfit : can_fit b (st1 r) = true).
  { now apply can_fit_in_bounds. }
  intros p. unfold update_free_rectangles.
  rewrite prune_inside_NoDup by now apply updated_rectangles_NoDup.
  rewrite updated_cover, (Hexact p).
  rewrite (bin_rect_shape b _ (add_item_shape b st1 r)).
  assert (Hitems : inside_item st1 (fst (add_item b st1 r)) p <->
                   inside_item st b p \/
                   inside (px, py, width (st1 r), height (st1 r)) p).
  { unfold inside_item. rewrite add_item_items, Hfit. split.
    - intros (q & Hq & Hin). apply in_app_or in Hq as [Hq|[<-|[]]].
      + left. exists q. split; [exact Hq|].
        unfold st1 in Hin. now rewrite set_position_other in Hin by (intros ->; contradiction).
      + right. unfold st1 in Hin. rewrite item_rect_set_position_same in Hin.
        now rewrite Hw, Hh.
    - intros [(q & Hq & Hin)|Hin].
      + exists q. split; [apply in_or_app; now left|].
        unfold st1. now rewrite set_position_other by (intros ->; contradiction).
      + exists r. split; [apply in_or_app; right; now left|].
        unfold st1. rewrite item_rect_set_position_same. now rewrite Hw, Hh in Hin. }
  rewrite Hitems. tauto.
Qed.

Lemma MaxRects_pack_items_exact its : forall st b free,
  bin_depth b = None ->
  bin_ok st b -> free_clear st b free ->
  NoDup its -> (forall r, In r its -> ~ In r (items b)) ->
  antichain free -> free_exact st b free ->
  antichain (snd (pack_items heuristic st b free its)) /\
  free_exact (fst (fst (pack_items heuristic st b free its)))
             (snd (fst (pack_items heuristic st b free its)))
             (snd (pack_items heuristic st b free its)).
Proof.
  induction its as [|r its IH]; intros st b free Hd Hok Hclear Hnd Hfresh Hanti Hexact;
    cbn [pack_items]; [auto|].
  apply NoDup_cons_iff in Hnd as [Hr Hnd].
  assert (Hrb : ~ In r (items b)) by (apply Hfresh; now left).
  destruct (find_best_position heuristic free (st r)) as [[[px py] idx]|] eqn:Hfind.
  - destruct (MaxRects_step_ok st b free r px py idx Hok Hclear Hrb Hfind) as [Hok1 Hclear1].
    pose proof (MaxRects_step_exact st b free r px py idx Hd Hclear Hrb Hanti
                  Hexact Hfind) as Hexact1.
    apply IH; trivial.
    + destruct (add_item_dims b (set_position st r px py) r) as (_ & _ & ->). exact Hd.
    + intros q Hq Hin. rewrite add_item_items in Hin.
      destruct (can_fit b _); [|apply (Hfresh q); [now right|exact Hin]].
      apply in_app_or in Hin as [Hin|[<-|[]]]; [|contradiction].
      apply (Hfresh q); [now right|exact Hin].
    + apply pruned_antichain.
  - apply IH; trivial. intros q Hq. apply Hfresh. now right.
Qed.

Lemma antichain_single r : antichain [r].
Proof.
  intros pre r' post Heq o Ho.
  destruct pre as [|a pre]; [|destruct pre; discriminate].
  injection Heq as _ <-. destruct Ho.
Qed.

Lemma free_exact_start st b : items b = [] -> free_exact st b [bin_rect b].
Proof.
  intros Hb p. unfold inside_some, inside_item. rewrite Hb. split.
  - intros (r & [<-|[]] & Hr). split; [exact Hr|]. intros (q & [] & _).
  - intros [Hr _]. exists (bin_rect b). split; [now left|exact Hr].
Qed.

End MaxRectsOneBin.

(** The run of [MaxRects2D.pack] on one bin without items, in the terms of
    the invariants [bin_ok] and [free_clear]. *)
Lemma MaxRects_pack_fresh_bin (heuristic : string) (st : store) (its : list ref) (b : Bin) :
  NoDup its -> items b = [] ->
  exists st' b' free',
    MaxRects2D.pack heuristic st its [b] = (st', [b'], Returned) /\
    bin_shape b' = bin_shape b /\
    free_rectangles b' = Some free' /\
    (forall i j p q, i <> j ->
       nth_error (items b') i = Some p -> nth_error (items b') j = Some q ->
       overlaps (st' p) (st' q) = false) /\
    (forall p, In p (items b') -> in_bounds b' (st' p)) /\
    (forall f, In f free' ->
       MaxRects2D.contained_in f (bin_rect b') = true /\
       forall q, In q (items b') ->
         MaxRects2D.rectangles_intersect f (item_rect (st' q)) = false).
Proof.
  intros Hnd Hempty.
  destruct (MaxRects_pack_items_ok heuristic its st b [bin_rect b])
    as [Hok Hclear]; trivial.
  { now apply bin_ok_start. }
  { now apply free_clear_start. }
  { intros r _. rewrite Hempty. intros []. }
  pose proof (MaxRects_pack_items_shape heuristic its st b [bin_rect b]) as Hshape.
  unfold MaxRects2D.pack. cbn [MaxRects2D.pack_bins]. unfold bin_rect in *.
  destruct (MaxRects2D.pack_items heuristic st b _ its) as [[st1 b1] free1].
  cbn [fst snd] in *.
  exists st1, (MaxRects2D.set_free_rectangles b1 (MaxRects2D.prune_free_rectangles free1)),
         (MaxRects2D.prune_free_rectangles free1).
  split; [reflexivity|]. split; [exact Hshape|]. split; [reflexivity|].
  destruct Hok as (Hnodup & Hin & Hov). destruct Hclear as [Hfin Hfq].
  cbn [MaxRects2D.set_free_rectangles items]. split; [|split].
  - intros i j p q Hij Hi Hj. apply Hov.
    + eapply nth_error_In; eauto.
    + eapply nth_error_In; eauto.
    + intros ->. apply Hij.
      apply (proj1 (NoDup_nth_error (items b1)) Hnodup); [|congruence].
      apply nth_error_Some. congruence.
  - intros p Hp. exact (Hin p Hp).
  - intros f Hf. apply prune_free_rectangles_incl in Hf. split.
    + exact (Hfin f Hf).
    + intros q Hq. now apply Hfq.
Qed.

(** X13.  [MaxRects2D.pack] on one bin without items, of integer width and
    height at most 2^26, on items of integer width and height at least 0,
    every item passed once (so that every sum, difference and product of
    the run is exact in binary64): the run returns the bin with its free
    rectangles assigned; the items at two different places of its item list
    are separated (one lies entirely to the left of, to the right of, below
    or above the other), every item lies within the bin (x >= 0, y >= 0,
    x + width <= bin.width, y + height <= bin.height), and every free
    rectangle lies within the bin's rectangle and entirely to one side of
    every item. *)
Theorem MaxRects_pack_one_bin (heuristic : string) (st : store) (its : list ref) (b : Bin) :
  NoDup its -> items b = [] ->
  bin_width b <= exact_side -> bin_height b <= exact_side ->
  (forall r, In r its -> 0 <= width (st r) /\ 0 <= height (st r)) ->
  exists st' b' free',
    MaxRects2D.pack heuristic st its [b] = (st', [b'], Returned) /\
    bin_shape b' = bin_shape b /\
    free_rectangles b' = Some free' /\
    (forall i j p q, i <> j ->
       nth_error (items b') i = Some p -> nth_error (items b') j = Some q ->
       separated (st' p) (st' q)) /\
    (forall p, In p (items b') -> in_bounds b' (st' p)) /\
    (forall f, In f free' ->
       rect_within f (bin_rect b') /\
       forall q, In q (items b') -> rect_apart f (item_rect (st' q))).
Proof.
  intros Hnd Hempty _ _ _.
  destruct (MaxRects_pack_fresh_bin heuristic st its b Hnd Hempty)
    as (st' & b' & free' & Hrun & Hshape & Hfree & Hov & Hin & Hclear).
  exists st', b', free'.
  split; [exact Hrun|]. split; [exact Hshape|]. split; [exact Hfree|].
  split; [|split; [exact Hin|]].
  - intros i j p q Hij Hi Hj.
    apply overlaps_false_separated. now apply (Hov i j).
  - intros f Hf. destruct (Hclear f Hf) as [Hc Ha]. split.
    + now apply contained_in_within.
    + intros q Hq. apply rectangles_intersect_apart. now apply Ha.
Qed.

(** The five items of the test on a 10x10 bin. *)
Lemma MaxRects_pack_one_bin_witness :
  let st := store_of [new_Item "A" 3 3 None; new_Item "B" 4 2 None; new_Item "C" 2 2 None;
                      new_Item "D" 5 3 None; new_Item "E" 3 4 None] in
  let b := new_Bin "bin_test" 10 10 None in
  exists st' b' free',
    MaxRects2D.pack "best_area_fit" st [0; 1; 2; 3; 4]%nat [b] = (st', [b'], Returned) /\
    bin_shape b' = bin_shape b /\
    free_rectangles b' = Some free' /\
    (forall i j p q, i <> j ->
       nth_error (items b') i = Some p -> nth_error (items b') j = Some q ->
       separated (st' p) (st' q)) /\
    (forall p, In p (items b') -> in_bounds b' (st' p)) /\
    (forall f, In f free' ->
       rect_within f (bin_rect b') /\
       forall q, In q (items b') -> rect_apart f (item_rect (st' q))).
Proof.
  intros st b.
  apply (MaxRects_pack_one_bin "best_area_fit" st [0; 1; 2; 3; 4]%nat b).
  - repeat constructor; cbn; intuition discriminate.
  - reflexivity.
  - unfold exact_side; cbn; lia.
  - unfold exact_side; cbn; lia.
  - intros r [<-|[<-|[<-|[<-|[<-|[]]]]]]; cbn; lia.
Defined.

(** X14.  [MaxRects2D.pack] on one bin without depth and without items, of
    integer width and height at most 2^26, on items of integer width and
    height at least 0, every item passed once (so that the arithmetic of the
    run is exact in binary64): the free rectangles assigned to the bin cover
    the bin less its items exactly: a point lies in a free rectangle exactly
    when it lies in the bin and in no item of the bin. *)
Theorem MaxRects_pack_free_space_exact (heuristic : string) (st : store) (its : list ref)
        (b : Bin) :
  NoDup its -> items b = [] -> bin_depth b = None ->
  bin_width b <= exact_side -> bin_height b <= exact_side ->
  (forall r, In r its -> 0 <= width (st r) /\ 0 <= height (st r)) ->
  exists st' b' free',
    MaxRects2D.pack heuristic st its [b] = (st', [b'], Returned) /\
    free_rectangles b' = Some free' /\
    forall p, inside_some free' p <-> inside (bin_rect b') p /\ ~ inside_item st' b' p.
Proof.
  intros Hnd Hempty Hd _ _ _.
  destruct (MaxRects_pack_items_exact heuristic its st b [bin_rect b])
    as [Hanti Hexact]; trivial.
  { now apply bin_ok_start. }
  { now apply free_clear_start. }
  { intros r _. rewrite Hempty. intros []. }
  { apply antichain_single. }
  { now apply free_exact_start. }
  unfold MaxRects2D.pack. cbn [MaxRects2D.pack_bins]. unfold bin_rect in Hanti, Hexact.
  destruct (MaxRects2D.pack_items heuristic st b _ its) as [[st1 b1] free1].
  cbn [fst snd] in *.
  exists st1, (MaxRects2D.set_free_rectangles b1 (MaxRects2D.prune_free_rectangles free1)),
         (MaxRects2D.prune_free_rectangles free1).
  split; [reflexivity|]. split; [reflexivity|].
  intros p. rewrite prune_inside_NoDup by now apply antichain_NoDup.
  exact (Hexact p).
Qed.

(** The five items of the test on a 10x10 bin. *)
Lemma MaxRects_pack_free_space_exact_witness :
  let st := store_of [new_Item "A" 3 3 None; new_Item "B" 4 2 None; new_Item "C" 2 2 None;
                      new_Item "D" 5 3 None; new_Item "E" 3 4 None] in
  let b := new_Bin "bin_test" 10 10 None in
  exists st' b' free',
    MaxRects2D.pack "best_area_fit" st [0; 1; 2; 3; 4]%nat [b] = (st', [b'], Returned) /\
    free_rectangles b' = Some free' /\
    forall p, inside_some free' p <-> inside (bin_rect b') p /\ ~ inside_item st' b' p.
Proof.
  intros st b.
  apply (MaxRects_pack_free_space_exact "best_area_fit" st [0; 1; 2; 3; 4]%nat b).
  - repeat constructor; cbn; intuition discriminate.
  - reflexivity.
  - reflexivity.
  - unfold exact_side; cbn; lia.
  - unfold exact_side; cbn; lia.
  - intros r [<-|[<-|[<-|[<-|[<-|[]]]]]]; cbn; lia.
Defined.

(* ================================================================== *)
(** * Guillotine: the default and the alternative cut *)
(* ================================================================== *)

Section GuillotineCuts.

Import Guillotine2D.

Ltac piece_cases H :=
  cbn [In] in H; repeat (destruct H as [<-|H]); try contradiction.

Ltac find_region :=
  first [ left; unfold inside; cbn; lia
        | right; eexists; split; [cbn; left; reflexivity|unfold inside; cbn; lia]
        | right; eexists; split; [cbn; right; left; reflexivity|unfold inside; cbn; lia] ].

Lemma _split_default_clean_split rx ry rw rh it :
  0 <= width it <= rw -> 0 <= height it <= rh ->
  clean_split (rx, ry, rw, rh) (rx, ry, width it, height it)
              (_split_default (rx, ry, rw, rh) it rx ry).
Proof.
  intros Hw Hh. unfold clean_split, _split_default.
  destruct (0 <? rx + rw - (rx + width it)) eqn:E1;
    [apply Z.ltb_lt in E1|apply Z.ltb_ge in E1];
  (destruct (0 <? ry + rh - (ry + height it)) eqn:E2;
    [apply Z.ltb_lt in E2|apply Z.ltb_ge in E2]);
  cbn [app]; (split; [|split]).
  all: try (intros f Hf; piece_cases Hf;
            rewrite contained_in_true, rectangles_intersect_false; lia).
  all: try (cbn [pairwise_apart]; repeat split; intros o Ho; piece_cases Ho;
            rewrite rectangles_intersect_false; lia).
  all: intros [u v]; unfold inside_some; split;
    [ intros Hin; unfold inside in Hin; cbn in Hin;
      destruct (Z_lt_le_dec v (ry + height it)), (Z_lt_le_dec u (rx + width it));
      find_region
    | intros [H|(f & Hf & Hin)];
      [unfold inside in *; cbn in *; lia
      |piece_cases Hf; unfold inside in *; cbn in *; lia] ].
Qed.

Lemma _split_alternative_clean_split rx ry rw rh it :
  0 <= width it <= rw -> 0 <= height it <= rh ->
  clean_split (rx, ry, rw, rh) (rx, ry, width it, height it)
              (_split_alternative (rx, ry, rw, rh) it rx ry).
Proof.
  intros Hw Hh. unfold clean_split, _split_alternative.
  destruct (0 <? rx + rw - (rx + width it)) eqn:E1;
    [apply Z.ltb_lt in E1|apply Z.ltb_ge in E1];
  (destruct (0 <? ry + rh - (ry + height it)) eqn:E2;
    [apply Z.ltb_lt in E2|apply Z.ltb_ge in E2]);
  cbn [app]; (split; [|split]).
  all: try (intros f Hf; piece_cases Hf;
            rewrite contained_in_true, rectangles_intersect_false; lia).
  all: try (cbn [pairwise_apart]; repeat split; intros o Ho; piece_cases Ho;
            rewrite rectangles_intersect_false; lia).
  all: intros [u v]; unfold inside_some; split;
    [ intros Hin; unfold inside in Hin; cbn in Hin;
      destruct (Z_lt_le_dec v (ry + height it)), (Z_lt_le_dec u (rx + width it));
      find_region
    | intros [H|(f & Hf & Hin)];
      [unfold inside in *; cbn in *; lia
      |piece_cases Hf; unfold inside in *; cbn in *; lia] ].
Qed.

End GuillotineCuts.





(* ================================================================== *)
(** * Guillotine on one bin: no overlap, within bounds, exact free space *)
(* ================================================================== *)

Section GuillotineOneBin.

Import Guillotine2D.

Lemma pairwise_apart_app l1 l2 :
  pairwise_apart (l1 ++ l2) <->
  pairwise_apart l1 /\ pairwise_apart l2 /\
  (forall a c, In a l1 -> In c l2 -> MaxRects2D.rectangles_intersect a c = false).
Proof.
  induction l1 as [|r l1 IH]; cbn [app pairwise_apart].
  - split; [intros H; repeat split; [exact H|intros a c []]|tauto].
  - rewrite IH. split.
    + intros (Hr & H1 & H2 & Hx). repeat split; trivial.
      * intros o Ho. apply Hr. apply in_or_app. now left.
      * intros a c [<-|Ha] Hc; [apply Hr; apply in_or_app; now right|now apply Hx].
    + intros ((Hr & H1) & H2 & Hx). repeat split; trivial.
      * intros o Ho. apply in_app_or in Ho as [Ho|Ho]; [now apply Hr|].
        apply Hx; [now left|exact Ho].
      * intros a c Ha Hc. apply Hx; [now right|exact Hc].
Qed.

(** A rectangle taken out of a list of rectangles that keep apart. *)
Lemma pairwise_apart_remove pre f0 post :
  pairwise_apart (pre ++ f0 :: post) ->
  pairwise_apart (pre ++ post) /\
  (forall f, In f (pre ++ post) -> MaxRects2D.rectangles_intersect f f0 = false).
Proof.
  rewrite pairwise_apart_app. cbn [pairwise_apart]. intros (Hpre & (Hf0 & Hpost) & Hx).
  split.
  - apply pairwise_apart_app. repeat split; trivial.
    intros a c Ha Hc. apply Hx; [exact Ha|now right].
  - intros f Hf. apply in_app_or in Hf as [Hf|Hf].
    + apply Hx; [exact Hf|now left].
    + apply rectangles_intersect_sym. now apply Hf0.
Qed.

(** The cut made for the names [default] and [alternative]. *)
Lemma split_rectangle_clean heuristic px py rw rh it :
  heuristic_key heuristic = "default" \/ heuristic_key heuristic = "alternative" ->
  0 <= width it <= rw -> 0 <= height it <= rh ->
  exists pieces,
    split_rectangle heuristic (px, py, rw, rh) it px py = Some pieces /\
    clean_split (px, py, rw, rh) (px, py, width it, height it) pieces.
Proof.
  intros [Hk|Hk] Hw Hh; unfold split_rectangle; rewrite Hk; cbn [String.eqb].
  - exists (_split_default (px, py, rw, rh) it px py).
    split; [reflexivity|now apply _split_default_clean_split].
  - exists (_split_alternative (px, py, rw, rh) it px py).
    split; [reflexivity|now apply _split_alternative_clean_split].
Qed.

Lemma inside_item_add st b r px py p :
  can_fit b (set_position st r px py r) = true -> ~ In r (items b) ->
  (inside_item (set_position st r px py)
               (fst (add_item b (set_position st r px py) r)) p <->
   inside_item st b p \/ inside (px, py, width (st r), height (st r)) p).
Proof.
  intros Hfit Hnot. unfold inside_item. rewrite add_item_items, Hfit. split.
  - intros (q & Hq & Hin). apply in_app_or in Hq as [Hq|[<-|[]]].
    + left. exists q. split; [exact Hq|].
      now rewrite set_position_other in Hin by (intros ->; contradiction).
    + right. now rewrite item_rect_set_position_same in Hin.
  - intros [(q & Hq & Hin)|Hin].
    + exists q. split; [apply in_or_app; now left|].
      now rewrite set_position_other by (intros ->; contradiction).
    + exists r. split; [apply in_or_app; right; now left|].
      now rewrite item_rect_set_position_same.
Qed.

Variable heuristic : string.
Hypothesis Hkey :
  heuristic_key heuristic = "default" \/ heuristic_key heuristic = "alternative".

(** One placement: the state of the bin and of the free rectangles after
    it. *)
Lemma Guillotine_step st b free r px py i :
  0 <= width (st r) -> 0 <= height (st r) ->
  bin_ok st b -> free_clear st b free -> pairwise_apart free -> ~ In r (items b) ->
  find_position free (st r) = Some (px, py, i) ->
  let st1 := set_position st r px py in
  let b1 := fst (add_item b st1 r) in
  exists used free0 pieces,
    pop free i = Some (used, free0) /\
    split_rectangle heuristic used (st1 r) px py = Some pieces /\
    bin_ok st1 b1 /\ free_clear st1 b1 (free0 ++ pieces) /\
    pairwise_apart (free0 ++ pieces) /\
    (bin_depth b = None -> free_exact st b free -> free_exact st1 b1 (free0 ++ pieces)).
Proof.
  intros Hwn Hhn Hok Hclear Hapart Hnot Hfind st1 b1.
  destruct (find_position_pop free (st r) px py i Hfind)
    as (rw & rh & pre & post & Hfree & Hroom & Hpop).
  assert (Hf : In (px, py, rw, rh) free).
  { rewrite Hfree. apply in_or_app. right. now left. }
  destruct (place_in_free st b free r px py rw rh Hclear Hf Hroom) as [Hb Hov].
  destruct (set_position_dims st r px py r) as (Hw & Hh & _). fold st1 in Hw, Hh, Hb.
  pose proof Hroom as Hroom'. apply has_room_true in Hroom'.
  destruct (split_rectangle_clean heuristic px py rw rh (st1 r) Hkey)
    as (pieces & Hsplit & Hcontained & Hpieces & Hcover); [lia|lia|].
  rewrite Hw, Hh in Hcontained, Hcover.
  rewrite Hfree in Hapart. apply pairwise_apart_remove in Hapart as [Hrest Hrest0].
  assert (Hplaced : MaxRects2D.contained_in (px, py, width (st r), height (st r))
                                            (px, py, rw, rh) = true).
  { apply contained_in_true. lia. }
  assert (Hrest_placed : forall f, In f (pre ++ post) ->
            MaxRects2D.rectangles_intersect f (px, py, width (st r), height (st r)) = false).
  { intros f Hfin. apply rectangles_intersect_sym.
    apply (contained_in_apart _ (px, py, rw, rh)); [exact Hplaced|].
    apply rectangles_intersect_sym. now apply Hrest0. }
  assert (Hrest_free : forall f, In f (pre ++ post) -> In f free).
  { intros f Hfin. rewrite Hfree. apply in_app_or in Hfin as [Hfin|Hfin];
      apply in_or_app; [now left|right; now right]. }
  exists (px, py, rw, rh), (pre ++ post), pieces.
  split; [exact Hpop|]. split; [exact Hsplit|]. split; [now apply bin_ok_add|].
  split; [|split].
  - apply (free_clear_step st b free); trivial.
    intros f Hfin. apply in_app_or in Hfin as [Hfin|Hfin].
    + split; [now apply Hrest_placed|]. exists f. split; [auto|apply contained_in_refl].
    + destruct (Hcontained f Hfin) as [Hc Ha]. split; [exact Ha|].
      exists (px, py, rw, rh). auto.
  - apply pairwise_apart_app. split; [exact Hrest|]. split; [exact Hpieces|].
    intros a c Ha Hc. destruct (Hcontained c Hc) as [Hcc _].
    apply rectangles_intersect_sym.
    apply (contained_in_apart _ (px, py, rw, rh)); [exact Hcc|].
    apply rectangles_intersect_sym. now apply Hrest0.
  - intros Hd Hexact p.
    assert (Hfit : can_fit b (st1 r) = true) by now apply can_fit_in_bounds.
    unfold b1, st1. rewrite (bin_rect_shape b _ (add_item_shape b _ r)).
    rewrite inside_item_add by trivial.
    assert (Hsplit_free : inside_some free p <->
                          inside_some (pre ++ post) p \/ inside (px, py, rw, rh) p).
    { unfold inside_some. rewrite Hfree. split.
      - intros (f & Hfin & Hp). apply in_app_or in Hfin as [Hfin|[<-|Hfin]].
        + left. exists f. split; [apply in_or_app; now left|exact Hp].
        + now right.
        + left. exists f. split; [apply in_or_app; now right|exact Hp].
      - intros [(f & Hfin & Hp)|Hp].
        + exists f. split; [|exact Hp]. apply in_app_or in Hfin as [Hfin|Hfin];
            apply in_or_app; [now left|right; now right].
        + exists (px, py, rw, rh). split; [|exact Hp]. apply in_or_app. right. now left. }
    assert (Hjoin : inside_some ((pre ++ post) ++ pieces) p <->
                    inside_some (pre ++ post) p \/ inside_some pieces p).
    { unfold inside_some. split.
      - intros (f & Hfin & Hp). apply in_app_or in Hfin as [Hfin|Hfin]; eauto.
      - intros [(f & Hfin & Hp)|(f & Hfin & Hp)]; exists f;
          (split; [apply in_or_app; auto|exact Hp]). }
    specialize (Hexact p). specialize (Hcover p). rewrite Hsplit_free in Hexact.
    rewrite Hjoin. split.
    + intros [Hrestp|Hpc].
      * destruct (proj1 Hexact (or_introl Hrestp)) as [Hbin Hno]. split; [exact Hbin|].
        intros [Hi|Hpl]; [now apply Hno|].
        destruct Hrestp as (f & Hfin & Hp).
        exact (apart_inside f _ p (Hrest_placed f Hfin) Hp Hpl).
      * assert (H0 : inside (px, py, rw, rh) p) by (apply Hcover; now right).
        destruct (proj1 Hexact (or_intror H0)) as [Hbin Hno]. split; [exact Hbin|].
        intros [Hi|Hpl]; [now apply Hno|].
        destruct Hpc as (f & Hfin & Hp). destruct (Hcontained f Hfin) as [_ Ha].
        exact (apart_inside f _ p Ha Hp Hpl).
    + intros [Hbin Hno].
      destruct (proj2 Hexact) as [Hrestp|H0]; [split; [exact Hbin|tauto]|now left|].
      apply Hcover in H0 as [Hpl|Hpc]; [elim Hno; now right|now right].
Qed.

Lemma Guillotine_pack_items_ok its : forall st b free,
  (forall r, In r its -> 0 <= width (st r) /\ 0 <= height (st r)) ->
  bin_ok st b -> free_clear st b free -> pairwise_apart free ->
  NoDup its -> (forall r, In r its -> ~ In r (items b)) ->
  let res := pack_items heuristic st b free its in
  snd res = Returned /\
  bin_ok (fst (fst (fst res))) (snd (fst (fst res))) /\
  free_clear (fst (fst (fst res))) (snd (fst (fst res))) (snd (fst res)) /\
  pairwise_apart (snd (fst res)) /\
  (bin_depth b = None -> free_exact st b free ->
   free_exact (fst (fst (fst res))) (snd (fst (fst res))) (snd (fst res))).
Proof.
  induction its as [|r its IH]; intros st b free Hsize Hok Hclear Hapart Hnd Hfresh;
    cbn [pack_items]; [cbn; auto|].
  apply NoDup_cons_iff in Hnd as [Hr Hnd].
  assert (Hrb : ~ In r (items b)) by (apply Hfresh; now left).
  destruct (Hsize r (or_introl eq_refl)) as [Hwn Hhn].
  destruct (find_position free (st r)) as [[[px py] i]|] eqn:Hfind.
  - destruct (Guillotine_step st b free r px py i Hwn Hhn Hok Hclear Hapart Hrb Hfind)
      as (used & free0 & pieces & -> & -> & Hok1 & Hclear1 & Hapart1 & Hexact1).
    specialize (IH (set_position st r px py)
                   (fst (add_item b (set_position st r px py) r)) (free0 ++ pieces)).
    cbn zeta in IH |- *.
    destruct IH as (Hout & Hok' & Hclear' & Hapart' & Hexact'); trivial.
    + intros q Hq. destruct (set_position_dims st r px py q) as (-> & -> & _).
      apply Hsize. now right.
    + intros q Hq Hin. rewrite add_item_items in Hin.
      destruct (can_fit b _); [|apply (Hfresh q); [now right|exact Hin]].
      apply in_app_or in Hin as [Hin|[<-|[]]]; [|contradiction].
      apply (Hfresh q); [now right|exact Hin].
    + split; [exact Hout|]. split; [exact Hok'|]. split; [exact Hclear'|].
      split; [exact Hapart'|]. intros Hd Hexact. apply Hexact'.
      * destruct (add_item_dims b (set_position st r px py) r) as (_ & _ & ->). exact Hd.
      * now apply Hexact1.
  - apply IH; trivial.
    + intros q Hq. apply Hsize. now right.
    + intros q Hq. apply Hfresh. now right.
Qed.

End GuillotineOneBin.

(** The run of [Guillotine2D.pack] on one bin without items, in the terms of
    the invariant [bin_ok]. *)
Lemma Guillotine_pack_fresh_bin (heuristic : string) (st : store) (its : list ref) (b : Bin) :
  Guillotine2D.heuristic_key heuristic = "default" \/
  Guillotine2D.heuristic_key heuristic = "alternative" ->
  (forall r, In r its -> 0 <= width (st r) /\ 0 <= height (st r)) ->
  NoDup its -> items b = [] ->
  exists st' b',
    Guillotine2D.pack heuristic st its [b] = (st', [b'], Returned) /\
    bin_shape b' = bin_shape b /\
    (forall i j p q, i <> j ->
       nth_error (items b') i = Some p -> nth_error (items b') j = Some q ->
       overlaps (st' p) (st' q) = false) /\
    (forall p, In p (items b') -> in_bounds b' (st' p)).
Proof.
  intros Hkey Hsize Hnd Hempty.
  destruct (Guillotine_pack_items_ok heuristic Hkey its st b [bin_rect b])
    as (Hout & Hok & _); trivial.
  { now apply bin_ok_start. }
  { now apply free_clear_start. }
  { cbn. split; [intros o []|exact I]. }
  { intros r _. rewrite Hempty. intros []. }
  pose proof (Guillotine_pack_items_shape heuristic its st b [bin_rect b]) as Hshape.
  cbn [Guillotine2D.pack]. unfold bin_rect in *.
  destruct (Guillotine2D.pack_items heuristic st b _ its) as [[[st1 b1] free1] out].
  cbn [fst snd] in *. subst out.
  exists st1, b1. split; [reflexivity|]. split; [exact Hshape|].
  destruct Hok as (Hnodup & Hin & Hov). split.
  - intros i j p q Hij Hi Hj. apply Hov.
    + eapply nth_error_In; eauto.
    + eapply nth_error_In; eauto.
    + intros ->. apply Hij.
      apply (proj1 (NoDup_nth_error (items b1)) Hnodup); [|congruence].
      apply nth_error_Some. congruence.
  - intros p Hp. exact (Hin p Hp).
Qed.

(** X17.  [Guillotine2D.pack] with the default or the alternative cut, on
    one bin without items, of integer width and height at most 2^52, on
    items of integer width and height at least 0, every item passed once
    (so that every sum and difference of the run is exact in binary64): the
    run returns; the items at two different places of the bin's item list
    are separated (one lies entirely to the left of, to the right of, below
    or above the other) and every item lies within the bin (x >= 0, y >= 0,
    x + width <= bin.width, y + height <= bin.height). *)
Theorem Guillotine_pack_one_bin (heuristic : string) (st : store) (its : list ref) (b : Bin) :
  Guillotine2D.heuristic_key heuristic = "default" \/
  Guillotine2D.heuristic_key heuristic = "alternative" ->
  (forall r, In r its -> 0 <= width (st r) /\ 0 <= height (st r)) ->
  NoDup its -> items b = [] ->
  bin_width b <= exact_sum_bound -> bin_height b <= exact_sum_bound ->
  exists st' b',
    Guillotine2D.pack heuristic st its [b] = (st', [b'], Returned) /\
    bin_shape b' = bin_shape b /\
    (forall i j p q, i <> j ->
       nth_error (items b') i = Some p -> nth_error (items b') j = Some q ->
       separated (st' p) (st' q)) /\
    (forall p, In p (items b') -> in_bounds b' (st' p)).
Proof.
  intros Hkey Hsize Hnd Hempty _ _.
  destruct (Guillotine_pack_fresh_bin heuristic st its b Hkey Hsize Hnd Hempty)
    as (st' & b' & Hrun & Hshape & Hov & Hin).
  exists st', b'. split; [exact Hrun|]. split; [exact Hshape|]. split; [|exact Hin].
  intros i j p q Hij Hi Hj.
  apply overlaps_false_separated. now apply (Hov i j).
Qed.

(** The five items of the test on a 10x10 bin, default cut. *)
Lemma Guillotine_pack_one_bin_witness :
  let st := store_of [new_Item "A" 4 4 None; new_Item "B" 3 6 None; new_Item "C" 2 2 None;
                      new_Item "D" 5 3 None; new_Item "E" 3 3 None] in
  let b := new_Bin "bin_0" 10 10 None in
  exists st' b',
    Guillotine2D.pack "default" st [0; 1; 2; 3; 4]%nat [b] = (st', [b'], Returned) /\
    bin_shape b' = bin_shape b /\
    (forall i j p q, i <> j ->
       nth_error (items b') i = Some p -> nth_error (items b') j = Some q ->
       separated (st' p) (st' q)) /\
    (forall p, In p (items b') -> in_bounds b' (st' p)).
Proof.
  intros st b.
  apply (Guillotine_pack_one_bin "default" st [0; 1; 2; 3; 4]%nat b).
  - left. reflexivity.
  - intros r [<-|[<-|[<-|[<-|[<-|[]]]]]]; cbn; lia.
  - repeat constructor; cbn; intuition discriminate.
  - reflexivity.
  - unfold exact_sum_bound; cbn; lia.
  - unfold exact_sum_bound; cbn; lia.
Defined.

(** Rectangles of a list that is pairwise apart by the test of the code are
    apart by the inequalities, place by place. *)
Lemma pairwise_apart_at_places (l : list Rect) :
  pairwise_apart l -> apart_at_places l.
Proof.
  intros Hl pre a mid c post ->.
  apply pairwise_apart_app in Hl as (_ & Hl & _).
  destruct Hl as [Ha _].
  apply rectangles_intersect_apart. apply Ha.
  apply in_or_app. right. now left.
Qed.

(** X18.  The loop of [Guillotine2D.pack] over the items, with the default
    or the alternative cut, on a bin without depth and without items, of
    integer width and height at most 2^52, on items of integer width and
    height at least 0, every item passed once (so that every sum and
    difference is exact in binary64): the free rectangles it ends with lie,
    any two at different places of the list, entirely to one side of each
    other, and they cover the bin less its items exactly: a point lies in a
    free rectangle exactly when it lies in the bin and in no item of the
    bin. *)
Theorem Guillotine_free_space_exact (heuristic : string) (st : store) (its : list ref)
        (b : Bin) :
  Guillotine2D.heuristic_key heuristic = "default" \/
  Guillotine2D.heuristic_key heuristic = "alternative" ->
  (forall r, In r its -> 0 <= width (st r) /\ 0 <= height (st r)) ->
  NoDup its -> items b = [] -> bin_depth b = None ->
  bin_width b <= exact_sum_bound -> bin_height b <= exact_sum_bound ->
  exists st' b' free',
    Guillotine2D.pack_items heuristic st b [(0, 0, bin_width b, bin_height b)] its
    = (st', b', free', Returned) /\
    apart_at_places free' /\
    forall p, inside_some free' p <-> inside (bin_rect b') p /\ ~ inside_item st' b' p.
Proof.
  intros Hkey Hsize Hnd Hempty Hd _ _.
  destruct (Guillotine_pack_items_ok heuristic Hkey its st b [bin_rect b])
    as (Hout & _ & _ & Hapart & Hexact); trivial.
  { now apply bin_ok_start. }
  { now apply free_clear_start. }
  { cbn. split; [intros o []|exact I]. }
  { intros r _. rewrite Hempty. intros []. }
  specialize (Hexact Hd (free_exact_start st b Hempty)). unfold bin_rect in Hout, Hapart, Hexact.
  destruct (Guillotine2D.pack_items heuristic st b _ its) as [[[st1 b1] free1] out].
  cbn [fst snd] in *. subst out.
  exists st1, b1, free1. split; [reflexivity|].
  split; [now apply pairwise_apart_at_places|exact Hexact].
Qed.

(** The five items of the test on a 10x10 bin, alternative cut. *)
Lemma Guillotine_free_space_exact_witness :
  let st := store_of [new_Item "A" 4 4 None; new_Item "B" 3 6 None; new_Item "C" 2 2 None;
                      new_Item "D" 5 3 None; new_Item "E" 3 3 None] in
  let b := new_Bin "bin_0" 10 10 None in
  exists st' b' free',
    Guillotine2D.pack_items "alternative" st b [(0, 0, bin_width b, bin_height b)]
                            [0; 1; 2; 3; 4]%nat
    = (st', b', free', Returned) /\
    apart_at_places free' /\
    forall p, inside_some free' p <-> inside (bin_rect b') p /\ ~ inside_item st' b' p.
Proof.
  intros st b.
  apply (Guillotine_free_space_exact "alternative" st [0; 1; 2; 3; 4]%nat b).
  - right. reflexivity.
  - intros r [<-|[<-|[<-|[<-|[<-|[]]]]]]; cbn; lia.
  - repeat constructor; cbn; intuition discriminate.
  - reflexivity.
  - reflexivity.
  - unfold exact_sum_bound; cbn; lia.
  - unfold exact_sum_bound; cbn; lia.
Defined.

(* ================================================================== *)
(** * Bottom-Left and First-Fit: one bin per item, as properties *)
(* ================================================================== *)

(** X19.  [BottomLeft2D.pack] puts every item into at most one bin: when no
    reference occurs twice among the items given and the items the bins
    already hold, none occurs twice in the item lists after the run. *)
Theorem BottomLeft_one_bin_per_item (st : store) (its : list ref) (bins : list Bin) :
  NoDup (placed_refs bins ++ its) ->
  NoDup (placed_refs (run_bins (BottomLeft2D.pack st its bins))).
Proof. apply BottomLeft2D_pack_one_bin_per_item. Qed.

(** Three 4x4 items and one 5x5 bin: two bins are appended. *)
Lemma BottomLeft_one_bin_per_item_witness :
  NoDup (placed_refs (run_bins (BottomLeft2D.pack
           (store_of [new_Item "A" 4 4 None; new_Item "B" 4 4 None; new_Item "C" 4 4 None])
           [0; 1; 2]%nat [new_Bin "bin_1" 5 5 None]))).
Proof.
  apply BottomLeft_one_bin_per_item.
  repeat constructor; cbn; intuition discriminate.
Defined.

(** X20.  [FirstFit2D.pack] puts every item into at most one bin, under the
    same condition. *)
Theorem FirstFit_one_bin_per_item (st : store) (its : list ref) (bins : list Bin) :
  NoDup (placed_refs bins ++ its) ->
  NoDup (placed_refs (run_bins (FirstFit2D.pack st its bins))).
Proof. apply FirstFit2D_pack_one_bin_per_item. Qed.

(** Three 4x4 items and one 5x5 bin. *)
Lemma FirstFit_one_bin_per_item_witness :
  NoDup (placed_refs (run_bins (FirstFit2D.pack
           (store_of [new_Item "A" 4 4 None; new_Item "B" 4 4 None; new_Item "C" 4 4 None])
           [0; 1; 2]%nat [new_Bin "bin_1" 5 5 None]))).
Proof.
  apply FirstFit_one_bin_per_item.
  repeat constructor; cbn; intuition discriminate.
Defined.

(* ================================================================== *)
(** * The searches at work *)
(* ================================================================== *)

(** A 4x4 item: the 2x2 free rectangle is passed over, the 5x5 one taken. *)
Lemma Guillotine_find_position_first_witness :
  Guillotine2D.find_position [(0, 0, 2, 2); (0, 2, 5, 5)] (new_Item "A" 4 4 None)
  = Some (0, 2, 1%nat) /\
  has_room (0, 0, 2, 2) (new_Item "A" 4 4 None) = false.
Proof.
  pose proof (Guillotine_find_position_first [(0, 0, 2, 2); (0, 2, 5, 5)]
                (new_Item "A" 4 4 None)) as H.
  change (Guillotine2D.find_position [(0, 0, 2, 2); (0, 2, 5, 5)] (new_Item "A" 4 4 None))
    with (Some (0, 2, 1%nat)) in H.
  destruct H as (rw & rh & _ & _ & Hfirst).
  split; [reflexivity|]. apply (Hfirst 0%nat); [lia|reflexivity].
Defined.

(** A 4x4 item under [best_area_fit]: the 5x5 free rectangle has the least
    score. *)
Lemma find_best_position_least_score_witness :
  MaxRects2D.find_best_position "best_area_fit" [(0, 0, 10, 10); (10, 0, 5, 5)]
                                (new_Item "A" 4 4 None)
  = Some (10, 0, 1) /\
  rect_score "best_area_fit" (new_Item "A" 4 4 None) (10, 0, 5, 5)
  < rect_score "best_area_fit" (new_Item "A" 4 4 None) (0, 0, 10, 10).
Proof.
  pose proof (find_best_position_least_score "best_area_fit"
                [(0, 0, 10, 10); (10, 0, 5, 5)] (new_Item "A" 4 4 None)) as H.
  change (MaxRects2D.find_best_position "best_area_fit" [(0, 0, 10, 10); (10, 0, 5, 5)]
            (new_Item "A" 4 4 None)) with (Some (10, 0, 1)) in H.
  destruct H as (k & rw & rh & Hk & Hnth & _ & Hleast).
  assert (k = 1%nat) by lia. subst k. cbn in Hnth. injection Hnth as <- <-.
  split; [reflexivity|]. apply (Hleast 0%nat); [reflexivity|reflexivity|lia].
Defined.

(** Scenario A before C is placed: the corner (2,2) comes before (0,3). *)
Lemma BottomLeft_find_position_least_witness :
  let st := store_of [mkItem "A" 2 3 None 0 0 None; mkItem "B" 3 2 None 2 0 None;
                      new_Item "C" 1 1 None] in
  let b := mkBin "bin_1" 5 5 None [0; 1]%nat None in
  BottomLeft2D.find_position st b (st 2%nat) = Some (2, 2) /\
  corner_free st b (st 2%nat) (2, 2) /\ key_le (2, 2) (0, 3).
Proof.
  intros st b.
  assert (Hfree : corner_free st b (st 2%nat) (0, 3)).
  { unfold corner_free. cbn. split; [lia|]. split; [lia|].
    intros p [<-|[<-|[]]]; cbn; lia. }
  assert (Hin : forall p, In p (items b) ->
            in_bounds b (st p) /\ 0 <= width (st p) /\ 0 <= height (st p)).
  { intros p [<-|[<-|[]]]; unfold in_bounds; cbn; lia. }
  pose proof (BottomLeft_find_position_least st b (st 2%nat) Hin) as H.
  change (BottomLeft2D.find_position st b (st 2%nat)) with (Some (2, 2)) in H.
  destruct H as (_ & _ & _ & Hf & Hleast);
    try (unfold exact_sum_bound; cbn; lia).
  split; [reflexivity|]. split; [exact Hf|].
  apply Hleast; [|exact Hfree].
  right. exists 0%nat. split; [now left|right; reflexivity].
Defined.

(** A 4x4 item, a 3x3 bin and a 5x5 bin: the second bin takes it. *)
Lemma FirstFit_try_bins_first_witness :
  let st := store_of [new_Item "A" 4 4 None] in
  FirstFit2D.try_bins st 0%nat [new_Bin "bin_1" 3 3 None; new_Bin "bin_2" 5 5 None]
  = Some [new_Bin "bin_1" 3 3 None; fst (add_item (new_Bin "bin_2" 5 5 None) st 0%nat)] /\
  can_fit (new_Bin "bin_1" 3 3 None) (st 0%nat) = false.
Proof.
  intros st.
  pose proof (FirstFit_try_bins_first st 0%nat
                [new_Bin "bin_1" 3 3 None; new_Bin "bin_2" 5 5 None]) as H.
  change (FirstFit2D.try_bins st 0%nat [new_Bin "bin_1" 3 3 None; new_Bin "bin_2" 5 5 None])
    with (Some [new_Bin "bin_1" 3 3 None; fst (add_item (new_Bin "bin_2" 5 5 None) st 0%nat)])
    in H.
  destruct H as (pre & b & post & Hbins & Hpre & _).
  split; [reflexivity|].
  destruct pre as [|b1 pre].
  - reflexivity.
  - injection Hbins as <- _. apply Hpre. now left.
Defined.
